(** * godb: condition engine, raw SQL execution and the DB facade

    A shallow embedding of [condition.go], [raw_sql.go] and the parts of
    [godb.go] that deal with cloning and consumed-time accounting,
    followed by the properties of these functions.

    Conventions of the embedding:
    - a Go [string] is a sequence of bytes: [string] of the Standard
      Library (a list of [ascii]);
    - a Go [int] index is a [Z] (the length of a string or of a slice
      fits an [int], so the index arithmetic of this package does not
      wrap); [strings.Index] answers [-1] when the substring is absent,
      and slicing a string outside its bounds is a run-time panic, which
      the embedding renders as [None];
    - an [error] is a value; [nil] is [None];
    - a [time.Duration] is a signed 64-bit integer: additions wrap;
    - a [*StmtCache] is an address in a store of statement caches. *)

From Stdlib Require Import ZArith List String Ascii Bool Lia.
From stdpp Require Import gmap.
Import ListNotations.

Set Warnings "-register-all".
Local Open Scope Z_scope.

(** ** Go strings *)

Module strings.

(** [s[:i]]: panics unless [0 <= i <= len(s)]. *)
Fixpoint take (n : nat) (s : string) : option string :=
  match n with
  | O => Some EmptyString
  | S n' =>
      match s with
      | EmptyString => None
      | String c s' => option_map (String c) (take n' s')
      end
  end.

(** [s[i:]]: panics unless [0 <= i <= len(s)]. *)
Fixpoint drop (n : nat) (s : string) : option string :=
  match n with
  | O => Some s
  | S n' =>
      match s with
      | EmptyString => None
      | String _ s' => drop n' s'
      end
  end.

Definition slice_to (s : string) (i : Z) : option string :=
  if i <? 0 then None else take (Z.to_nat i) s.

Definition slice_from (s : string) (i : Z) : option string :=
  if i <? 0 then None else drop (Z.to_nat i) s.

(** [strings.Index(s, substr)]: the byte index of the first instance of
    [substr] in [s], or [-1] when there is none. *)
Fixpoint Index (s substr : string) : Z :=
  if String.prefix substr s then 0
  else
    match s with
    | EmptyString => -1
    | String _ s' =>
        let i := Index s' substr in
        if i <? 0 then -1 else i + 1
    end.

(** The non-overlapping instances of a non-empty [substr] in [s];
    [skip] bytes belong to the instance found last. *)
Fixpoint count_from (skip : nat) (s substr : string) : Z :=
  match s with
  | EmptyString => 0
  | String _ s' =>
      match skip with
      | S k => count_from k s' substr
      | O =>
          if String.prefix substr s
          then 1 + count_from (String.length substr - 1) s' substr
          else count_from 0 s' substr
      end
  end.

(** [strings.Count(s, substr)] for a non-empty [substr] (the only use
    in this package is with [Placeholder]). *)
Definition Count (s substr : string) : Z := count_from 0 s substr.

(** [strings.Repeat(s, count)]; a negative count panics. *)
Fixpoint repeat_nat (s : string) (n : nat) : string :=
  match n with
  | O => EmptyString
  | S n' => String.append s (repeat_nat s n')
  end.

Definition Repeat (s : string) (count : Z) : option string :=
  if count <? 0 then None else Some (repeat_nat s (Z.to_nat count)).

End strings.

(** ** Values passed as [interface{}] and their reflection *)

(** What [Q] can observe of an argument: whether it is the nil
    interface, and whether its dynamic type is a slice, in which case
    its elements (each again an [interface{}] through
    [v.Index(i).Interface()]).  A nil slice of some slice type is a
    non-nil interface holding a slice of length 0: [VSlice []]. *)
Inductive value : Type :=
| VNil
| VInt (n : Z)
| VString (s : string)
| VBool (b : bool)
| VSlice (elems : list value).

Module reflect.

Inductive Kind : Type := Int | String_ | Bool | Slice.

(** [reflect.TypeOf(arg)] followed by [Kind()]; [TypeOf(nil)] is nil. *)
Definition TypeOf (arg : value) : option Kind :=
  match arg with
  | VNil => None
  | VInt _ => Some Int
  | VString _ => Some String_
  | VBool _ => Some Bool
  | VSlice _ => Some Slice
  end.

Definition Kind_eqb (a b : Kind) : bool :=
  match a, b with
  | Int, Int | String_, String_ | Bool, Bool | Slice, Slice => true
  | _, _ => false
  end.

(** [reflect.ValueOf(arg).Len()] and [.Index(i).Interface()] of a slice. *)
Definition elements (arg : value) : list value :=
  match arg with
  | VSlice l => l
  | _ => []
  end.

End reflect.

(** ** Errors *)

(** [fmt.Errorf] builds an error out of its message; [sql.ErrNoRows] and
    [ErrOpLock] are package-level sentinels compared by identity;
    [External] stands for whatever a driver or another part of the
    package reports. *)
Inductive error : Type :=
| Errorf (msg : string)
| ErrNoRows
| ErrOpLock
| External (code : nat).

(** ** condition.go *)

(** [const Placeholder string = "?"] (godb.go). *)
Definition Placeholder : string := "?".

Record Condition : Type := mkCondition {
  err : option error;
  sql : string;
  args : list value
}.

(** [(c *Condition) Err()]. *)
Definition Err (c : Condition) : option error := err c.

Definition is_nil (arg : value) : bool :=
  match arg with VNil => true | _ => false end.

Definition is_slice (arg : value) : bool :=
  match reflect.TypeOf arg with
  | Some k => reflect.Kind_eqb k reflect.Slice
  | None => false
  end.

(** The three errors of [Q], each built by [fmt.Errorf]. *)
Definition wrong_number_error (sqlText : string) : error :=
  Errorf (String.append "wrong number of arguments in condition " sqlText).

Definition nil_argument_error (sqlText : string) : error :=
  Errorf (String.append "using nil as argument in condition " sqlText).

Definition empty_slice_error (sqlText : string) : error :=
  Errorf (String.append "empty slice used as argument in condition " sqlText).

(** The body of the loop [for _, arg := range args] of [Q], with the
    variables it updates: [c_args] is [c.args], [buffer] the bytes
    written so far and [remainingSQL] the rest of the fragment.  Every
    [return &c] inside the loop leaves [c.sql] empty and [c.args] as
    accumulated.  [None] is a run-time panic (a slice bound out of
    range, or a negative repeat count). *)
Fixpoint Q_loop (sqlText : string) (arguments : list value)
    (c_args : list value) (buffer remainingSQL : string) : option Condition :=
  match arguments with
  | [] =>
      Some (mkCondition None (String.append buffer remainingSQL) c_args)
  | arg :: rest =>
      if is_nil arg then
        Some (mkCondition (Some (nil_argument_error sqlText)) EmptyString c_args)
      else
        let placeholderPos := strings.Index remainingSQL Placeholder in
        match strings.slice_to remainingSQL placeholderPos with
        | None => None
        | Some written =>
            let buffer := String.append buffer written in
            match strings.slice_from remainingSQL (placeholderPos + 1) with
            | None => None
            | Some remainingSQL =>
                if is_slice arg then
                  let v := reflect.elements arg in
                  let length := Z.of_nat (List.length v) in
                  if length =? 0 then
                    Some (mkCondition (Some (empty_slice_error sqlText))
                            EmptyString c_args)
                  else
                    match strings.Repeat (String.append "," Placeholder)
                            (length - 1) with
                    | None => None
                    | Some commas =>
                        Q_loop sqlText rest (c_args ++ v)
                          (String.append buffer (String.append Placeholder commas))
                          remainingSQL
                    end
                else
                  Q_loop sqlText rest (c_args ++ [arg])
                    (String.append buffer Placeholder) remainingSQL
            end
        end
  end.

(** [Q(sql, args...)]. *)
Definition Q (sqlText : string) (arguments : list value) : option Condition :=
  if negb (strings.Count sqlText Placeholder
           =? Z.of_nat (List.length arguments))
  then Some (mkCondition (Some (wrong_number_error sqlText)) EmptyString [])
  else Q_loop sqlText arguments [] EmptyString sqlText.

(** The indices found by [strings.Index] in the successive iterations of
    the loop of [Q], each with the length of the string it was looked up
    in: the slicing [remainingSQL[:placeholderPos]] and
    [remainingSQL[placeholderPos+1:]] is in bounds exactly when
    [0 <= placeholderPos < len(remainingSQL)]. *)
Fixpoint Q_positions (arguments : list value) (remainingSQL : string)
    : list (Z * Z) :=
  match arguments with
  | [] => []
  | arg :: rest =>
      if is_nil arg then []
      else
        let placeholderPos := strings.Index remainingSQL Placeholder in
        (placeholderPos, Z.of_nat (String.length remainingSQL)) ::
        match strings.slice_to remainingSQL placeholderPos with
        | None => []
        | Some _ =>
            match strings.slice_from remainingSQL (placeholderPos + 1) with
            | None => []
            | Some remainingSQL =>
                if is_slice arg
                   && (Z.of_nat (List.length (reflect.elements arg)) =? 0)
                then []
                else Q_positions rest remainingSQL
            end
        end
  end.

(** [sumOfConditionsLengths]: the loop carries [sqlLength] and
    [argsLength]; the first poisoned condition ends it. *)
Fixpoint sumOfConditionsLengths_loop (sqlLength argsLength : Z)
    (conditions : list Condition) : Z * Z * option error :=
  match conditions with
  | [] => (sqlLength, argsLength, None)
  | c :: rest =>
      match err c with
      | Some e => (0, 0, Some e)
      | None =>
          sumOfConditionsLengths_loop
            (sqlLength + Z.of_nat (String.length (sql c)))
            (argsLength + Z.of_nat (List.length (args c)))
            rest
      end
  end.

Definition sumOfConditionsLengths (conditions : list Condition)
    : Z * Z * option error :=
  sumOfConditionsLengths_loop 0 0 conditions.

(** [joinSQL]: the loop carries the buffer and [firstCondition]. *)
Fixpoint joinSQL_loop (buffer : string) (firstCondition : bool)
    (conjunction : string) (conditions : list Condition) : string :=
  match conditions with
  | [] => buffer
  | c :: rest =>
      let buffer :=
        if negb firstCondition then String.append buffer conjunction
        else buffer in
      joinSQL_loop (String.append buffer (sql c)) false conjunction rest
  end.

Definition joinSQL (buffer conjunction : string) (conditions : list Condition)
    : string :=
  joinSQL_loop buffer true conjunction conditions.

(** [joinArgs]. *)
Fixpoint joinArgs (arguments : list value) (conditions : list Condition)
    : list value :=
  match conditions with
  | [] => arguments
  | c :: rest => joinArgs (arguments ++ args c) rest
  end.

(** [And(conditions...)].  The lengths summed by
    [sumOfConditionsLengths] only size the buffers. *)
Definition And (conditions : list Condition) : Condition :=
  match conditions with
  | [c] => c
  | _ =>
      let '(sqlLength, argsLength, e) := sumOfConditionsLengths conditions in
      match e with
      | Some e => mkCondition (Some e) EmptyString []
      | None =>
          mkCondition None
            (joinSQL EmptyString " AND " conditions)
            (joinArgs [] conditions)
      end
  end.

(** [Or(conditions...)]. *)
Definition Or (conditions : list Condition) : Condition :=
  match conditions with
  | [c] => c
  | _ =>
      let '(sqlLength, argsLength, e) := sumOfConditionsLengths conditions in
      match e with
      | Some e => mkCondition (Some e) EmptyString []
      | None =>
          let buffer := String.append EmptyString "(" in
          let buffer := joinSQL buffer " OR " conditions in
          let buffer := String.append buffer ")" in
          mkCondition None buffer (joinArgs [] conditions)
      end
  end.

(** [Not(condition)]. *)
Definition Not (condition : Condition) : Condition :=
  match err condition with
  | Some _ => condition
  | None =>
      let buffer := String.append EmptyString "NOT (" in
      let buffer := String.append buffer (sql condition) in
      let buffer := String.append buffer ")" in
      mkCondition None buffer (args condition)
  end.

(** ** The words of the specification, for comparison with [Q] *)

Module Spec.

(** A scalar counts once, a sequence by its length. *)
Definition arg_count (arg : value) : nat :=
  match arg with
  | VSlice l => List.length l
  | _ => 1%nat
  end.

(** A sequence contributes its elements, a scalar itself. *)
Definition arg_values (arg : value) : list value :=
  match arg with
  | VSlice l => l
  | _ => [arg]
  end.

(** [N] placeholders joined by [,] for a sequence of length [N], a
    single placeholder otherwise. *)
Definition arg_placeholders (arg : value) : string :=
  String.concat "," (List.repeat Placeholder (arg_count arg)).

(** Scan the fragment left to right; each placeholder consumes the
    next argument. *)
Fixpoint rewrite (fragment : string) (arguments : list value) : string :=
  match fragment with
  | EmptyString => EmptyString
  | String ch fragment' =>
      if Ascii.eqb ch "?" then
        match arguments with
        | arg :: rest =>
            String.append (arg_placeholders arg) (rewrite fragment' rest)
        | [] => String ch (rewrite fragment' [])
        end
      else String ch (rewrite fragment' arguments)
  end.

Definition flatten (arguments : list value) : list value :=
  List.flat_map arg_values arguments.

(** Fragments joined by a conjunction. *)
Definition joined (conjunction : string) (conditions : list Condition)
    : string :=
  String.concat conjunction (List.map sql conditions).

Definition all_args (conditions : list Condition) : list value :=
  List.concat (List.map args conditions).

End Spec.

(** An argument [Q] accepts: not the nil interface, not an empty slice. *)
Definition accepted (arg : value) : Prop :=
  arg <> VNil /\ arg <> VSlice [].

(** The slicing of one iteration is in bounds. *)
Definition in_bounds (found : Z * Z) : Prop :=
  0 <= fst found < snd found.

(** ** godb.go: the DB facade *)

(** [time.Duration] is an [int64]: [+=] wraps around. *)
Definition max_int64 : Z := 2 ^ 63 - 1.
Definition min_int64 : Z := - 2 ^ 63.

Definition in_int64 (z : Z) : Prop := min_int64 <= z <= max_int64.

Definition wrap_int64 (z : Z) : Z := (z + 2 ^ 63) mod 2 ^ 64 - 2 ^ 63.

(** Objects are reached through pointers: an address in a store.  A nil
    or dangling pointer has no object, and dereferencing it panics
    ([None]). *)
Definition loc : Type := nat.

(** Modelled from the spec: the type [StmtCache] and its operations
    (newStmtCache, GetSize, SetSize, IsEnabled, Disable) are declared in
    a file that is not among the sources.  Section 4.3: a bounded cache
    from finalized SQL text to a prepared handle, with enable/disable
    and set-capacity; a new cache is enabled (the facade disables the
    ad-hoc one explicitly) and holds no statement.  The default capacity
    is a parameter. *)
Record StmtCache : Type := mkStmtCache {
  isEnabled : bool;
  maxSize : Z;
  prepared : list (string * nat)
}.

(** Values of types declared by other packages ([adapters.Adapter],
    [*sql.DB], [*sql.Tx], [Logger], [tablenamer.NamerFn]) are only
    copied and compared here: an identifier each, [None] for nil. *)
Record DB : Type := mkDB {
  adapter : option nat;
  sqlDB : option nat;
  sqlTx : option nat;
  logger : option nat;
  consumedTime : Z;
  defaultTableNamer : option nat;
  stmtCacheDB : loc;
  stmtCacheTx : loc;
  useErrorParser : bool
}.

Record Store : Type := mkStore {
  dbs : gmap loc DB;
  stmtCaches : gmap loc StmtCache
}.

Definition set_dbs (f : gmap loc DB -> gmap loc DB) (st : Store) : Store :=
  mkStore (f (dbs st)) (stmtCaches st).

Definition set_stmtCaches (f : gmap loc StmtCache -> gmap loc StmtCache)
    (st : Store) : Store :=
  mkStore (dbs st) (f (stmtCaches st)).

Section StmtCacheModel.

Variable defaultSize : Z.

(** Modelled from the spec: [newStmtCache()] allocates an enabled, empty
    cache at an address not in use. *)
Definition newStmtCache (st : Store) : loc * Store :=
  let p := fresh (dom (stmtCaches st)) in
  (p, set_stmtCaches (insert p (mkStmtCache true defaultSize [])) st).

(** Modelled from the spec: the accessors of a cache. *)
Definition GetSize (p : loc) (st : Store) : option Z :=
  maxSize <$> stmtCaches st !! p.

Definition IsEnabled (p : loc) (st : Store) : option bool :=
  isEnabled <$> stmtCaches st !! p.

Definition SetSize (p : loc) (size : Z) (st : Store) : option Store :=
  c ← stmtCaches st !! p;
  Some (set_stmtCaches (insert p (mkStmtCache (isEnabled c) size (prepared c))) st).

Definition Disable (p : loc) (st : Store) : option Store :=
  c ← stmtCaches st !! p;
  Some (set_stmtCaches (insert p (mkStmtCache false (maxSize c) (prepared c))) st).

(** [&DB{...}]: a new object at an address not in use. *)
Definition new_DB (d : DB) (st : Store) : loc * Store :=
  let p := fresh (dom (dbs st)) in
  (p, set_dbs (insert p d) st).

(** [(db *DB) Clone()]. *)
Definition Clone (db : loc) (st : Store) : option (loc * Store) :=
  d ← dbs st !! db;
  let '(cacheDB, st) := newStmtCache st in
  let '(cacheTx, st) := newStmtCache st in
  let '(clone, st) :=
    new_DB (mkDB (adapter d) (sqlDB d) None (logger d) 0
                 (defaultTableNamer d) cacheDB cacheTx (useErrorParser d)) st in
  size ← GetSize (stmtCacheDB d) st;
  st ← SetSize cacheDB size st;
  enabled ← IsEnabled (stmtCacheDB d) st;
  st ← (if negb enabled then Disable cacheDB st else Some st);
  size ← GetSize (stmtCacheTx d) st;
  st ← SetSize cacheTx size st;
  enabled ← IsEnabled (stmtCacheTx d) st;
  st ← (if negb enabled then Disable cacheTx st else Some st);
  Some (clone, st).

End StmtCacheModel.

(** [(db *DB) ConsumedTime()]. *)
Definition ConsumedTime (db : loc) (st : Store) : option Z :=
  consumedTime <$> dbs st !! db.

Definition with_consumedTime (t : Z) (d : DB) : DB :=
  mkDB (adapter d) (sqlDB d) (sqlTx d) (logger d) t
       (defaultTableNamer d) (stmtCacheDB d) (stmtCacheTx d) (useErrorParser d).

(** [(db *DB) ResetConsumedTime()]. *)
Definition ResetConsumedTime (db : loc) (st : Store) : option Store :=
  d ← dbs st !! db;
  Some (set_dbs (insert db (with_consumedTime 0 d)) st).

(** [(db *DB) addConsumedTime(duration)]. *)
Definition addConsumedTime (db : loc) (duration : Z) (st : Store)
    : option Store :=
  d ← dbs st !! db;
  Some (set_dbs
          (insert db (with_consumedTime (wrap_int64 (consumedTime d + duration)) d))
          st).

(** The pipeline adding the elapsed time of one call after the other. *)
Fixpoint add_all (db : loc) (durations : list Z) (st : Store) : option Store :=
  match durations with
  | [] => Some st
  | duration :: rest =>
      st ← addConsumedTime db duration st;
      add_all db rest st
  end.

(** ** raw_sql.go *)

Module RawSQL.

Record RawSQL : Type := mkRawSQL {
  db : loc;
  sql : string;
  arguments : list value
}.

Section Do.

(** What the execution pipeline works on (the store, the driver, the
    target behind the [record] pointer), the targets, and the
    descriptions of their columns: all declared outside [raw_sql.go]. *)
Variables (world target structMappingDetails pointer : Type).

(** [recordDescription]: declared in a file that is not among the
    sources; [Do] reads its fields [isSlice] and [structMapping]. *)
Record recordDescription : Type := mkRecordDescription {
  record : target;
  isSlice : bool;
  structMapping : structMappingDetails
}.

Definition pointersGetter : Type :=
  target -> list string -> world -> list pointer * option error.

(** The functions [Do] calls, taken as parameters. *)
Variable buildRecordDescription : target -> recordDescription + error.
Variable GetPointersForColumns :
  structMappingDetails -> target -> list string -> world
  -> list pointer * option error.
Variable doSelectOrWithReturning :
  loc -> string -> list value -> recordDescription -> pointersGetter
  -> world -> world * (Z * option error).

(** [(raw *RawSQL) Do(record)]: the world after the call and the error
    returned. *)
Definition Do (raw : RawSQL) (rec : target) (w : world)
    : world * option error :=
  match buildRecordDescription rec with
  | inr e => (w, Some e)
  | inl recordInfo =>
      let getter : pointersGetter :=
        fun rec columns =>
          GetPointersForColumns (structMapping recordInfo) rec columns in
      let '(w, (rowsCount, e)) :=
        doSelectOrWithReturning (db raw) (sql raw) (arguments raw)
          recordInfo getter w in
      match e with
      | Some e => (w, Some e)
      | None =>
          if negb (isSlice recordInfo) && (rowsCount =? 0)
          then (w, Some ErrNoRows)
          else (w, None)
      end
  end.

End Do.

End RawSQL.

(** ** Concrete objects for the examples *)

(** A store as left by [initialize]: one DB at address 0, without
    transaction, its ad-hoc cache (address 0) disabled and its
    transaction cache (address 1) enabled. *)
Definition example_DB : DB :=
  mkDB (Some 1%nat) (Some 7%nat) None None 0 (Some 0%nat) 0%nat 1%nat false.

Definition example_store : Store :=
  mkStore {[ 0%nat := example_DB ]}
          {[ 0%nat := mkStmtCache false 64 []; 1%nat := mkStmtCache true 64 [] ]}.

(** The sum of the durations added. *)
Definition total (durations : list Z) : Z := fold_right Z.add 0 durations.

(** A pipeline whose query matches no row, for a target that is either a
    struct ([false]) or a slice ([true]); the world is the content of the
    slice. *)
Module NoRows.

Definition world : Type := list (list value).
Definition target : Type := bool.

Definition buildRecordDescription (rec : target)
    : RawSQL.recordDescription target unit + error :=
  inl (RawSQL.mkRecordDescription target unit rec rec tt).

Definition GetPointersForColumns (_ : unit) (_ : target) (_ : list string)
    (_ : world) : list nat * option error :=
  ([], None).

Definition doSelectOrWithReturning (_ : loc) (_ : string) (_ : list value)
    (_ : RawSQL.recordDescription target unit)
    (_ : RawSQL.pointersGetter world target nat) (w : world)
    : world * (Z * option error) :=
  (w, (0, None)).

Definition collection (w : world) (_ : target) : list (list value) := w.

Definition Do : RawSQL.RawSQL -> target -> world -> world * option error :=
  RawSQL.Do world target unit nat
    buildRecordDescription GetPointersForColumns doSelectOrWithReturning.

End NoRows.

(** ** condition.go: the buffers of [And], [Or] and [Not] *)


(** [And] with its two allocations: the capacity of the buffer is the
    sum of the lengths of the fragments plus 5 for every [" AND "]. *)
Definition And_capacity (conditions : list Condition) : Z :=
  let '(sqlLength, argsLength, e) := sumOfConditionsLengths conditions in
  sqlLength + 5 * (Z.of_nat (List.length conditions) - 1).





(** [Or] with its two allocations: 2 for the parentheses and 4 for
    every [" OR "]. *)
Definition Or_capacity (conditions : list Condition) : Z :=
  let '(sqlLength, argsLength, e) := sumOfConditionsLengths conditions in
  sqlLength + (2 + 4 * (Z.of_nat (List.length conditions) - 1)).




(** The capacity [Not] gives its buffer. *)
Definition Not_capacity (condition : Condition) : Z :=
  6 + Z.of_nat (String.length (sql condition)).

(** The lengths [sumOfConditionsLengths] adds up. *)
Definition fragment_lengths (conditions : list Condition) : Z :=
  total (List.map (fun c => Z.of_nat (String.length (sql c))) conditions).

Definition argument_counts (conditions : list Condition) : Z :=
  total (List.map (fun c => Z.of_nat (List.length (args c))) conditions).

(** A condition whose fragment has one placeholder for each of its
    arguments. *)
Definition aligned (c : Condition) : Prop :=
  strings.Count (sql c) Placeholder = Z.of_nat (List.length (args c)).

(** An argument that is neither nil nor a slice. *)
Definition scalar (arg : value) : Prop :=
  is_nil arg = false /\ is_slice arg = false.


(** ** godb.go: quoting identifiers *)

(** [strings.Split(s, sep)] for a non-empty [sep]: the substrings
    between the non-overlapping instances of [sep], from left to right.
    [skip] bytes belong to the instance found last; [current] is the
    substring being read. *)
Fixpoint split_from (skip : nat) (s sep current : string) : list string :=
  match s with
  | EmptyString => [current]
  | String ch s' =>
      match skip with
      | S k => split_from k s' sep current
      | O =>
          if String.prefix sep s
          then current :: split_from (String.length sep - 1) s' sep EmptyString
          else split_from 0 s' sep (String.append current (String ch EmptyString))
      end
  end.

Definition Split (s sep : string) : list string :=
  split_from 0 s sep EmptyString.

(** [strings.Join(elems, sep)]. *)
Definition Join (elems : list string) (sep : string) : string :=
  String.concat sep elems.

Section Quoting.

(** [db.adapter.Quote], a method of the adapter interface. *)
Variable Quote : string -> string.

(** [(db *DB) quote(identifier)]. *)
Definition quote (identifier : string) : string :=
  let parts := Split identifier "." in
  let parts := List.map Quote parts in
  Join parts ".".

(** [(db *DB) quoteAll(identifiers)]. *)
Fixpoint quoteAll_loop (quotedIdentifiers identifiers : list string)
    : list string :=
  match identifiers with
  | [] => quotedIdentifiers
  | identifier :: rest =>
      let quotedIdentifier := quote identifier in
      quoteAll_loop (quotedIdentifiers ++ [quotedIdentifier]) rest
  end.

Definition quoteAll (identifiers : list string) : list string :=
  quoteAll_loop [] identifiers.

End Quoting.

(** ** godb.go: creating and configuring a DB *)

Section Initialize.

Variable defaultSize : Z.

(** The value of [tablenamer.Same()]. *)
Variable tablenamer_Same : option nat.

(** [initialize(adapter, dbInst)]; the zero value of the fields the
    literal leaves out is nil, [0] and [false]. *)
Definition initialize (adapterInst dbInst : option nat) (st : Store)
    : option (loc * Store) :=
  let '(cacheDB, st) := newStmtCache defaultSize st in
  let '(cacheTx, st) := newStmtCache defaultSize st in
  let d := mkDB adapterInst dbInst None None 0 tablenamer_Same
                cacheDB cacheTx false in
  st ← Disable (stmtCacheDB d) st;
  let '(db, st) := new_DB d st in
  Some (db, st).

(** [Wrap(adapter, dbInst)]. *)
Definition Wrap (adapterInst dbInst : option nat) (st : Store)
    : option (loc * Store) :=
  initialize adapterInst dbInst st.

End Initialize.

Definition with_defaultTableNamer (tnamer : option nat) (d : DB) : DB :=
  mkDB (adapter d) (sqlDB d) (sqlTx d) (logger d) (consumedTime d)
       tnamer (stmtCacheDB d) (stmtCacheTx d) (useErrorParser d).

Definition with_useErrorParser (b : bool) (d : DB) : DB :=
  mkDB (adapter d) (sqlDB d) (sqlTx d) (logger d) (consumedTime d)
       (defaultTableNamer d) (stmtCacheDB d) (stmtCacheTx d) b.

(** [(db *DB) SetDefaultTableNamer(tnamer)]. *)
Definition SetDefaultTableNamer (db : loc) (tnamer : option nat) (st : Store)
    : option Store :=
  d ← dbs st !! db;
  Some (set_dbs (insert db (with_defaultTableNamer tnamer d)) st).

(** [(db *DB) UseErrorParser()]. *)
Definition UseErrorParser (db : loc) (st : Store) : option Store :=
  d ← dbs st !! db;
  Some (set_dbs (insert db (with_useErrorParser true d)) st).

(** [(db *DB) Adapter()] and [(db *DB) CurrentDB()]. *)
Definition Adapter (db : loc) (st : Store) : option (option nat) :=
  adapter <$> dbs st !! db.

Definition CurrentDB (db : loc) (st : Store) : option (option nat) :=
  sqlDB <$> dbs st !! db.

(** * Properties *)

(** ** The examples of the specification *)

Example Q_in_list :
  Q "x = ? AND y IN (?)" [VInt 5; VSlice [VInt 1; VInt 2; VInt 3]]
  = Some (mkCondition None "x = ? AND y IN (?,?,?)" [VInt 5; VInt 1; VInt 2; VInt 3]).
Proof. reflexivity. Qed.

Example And_two :
  option_map (fun a => option_map (fun b => And [a; b]) (Q "b=?" [VInt 2]))
             (Q "a=?" [VInt 1])
  = Some (Some (mkCondition None "a=? AND b=?" [VInt 1; VInt 2])).
Proof. reflexivity. Qed.

Example Or_two :
  option_map (fun a => option_map (fun b => Or [a; b]) (Q "b=?" [VInt 2]))
             (Q "a=?" [VInt 1])
  = Some (Some (mkCondition None "(a=? OR b=?)" [VInt 1; VInt 2])).
Proof. reflexivity. Qed.

Example Not_one :
  option_map Not (Q "a=?" [VInt 1])
  = Some (mkCondition None "NOT (a=?)" [VInt 1]).
Proof. reflexivity. Qed.

(** ** Facts about strings and the placeholder *)

Section PlaceholderFacts.

Lemma append_cons (ch : ascii) (a b : string) :
  String.append (String ch a) b = String ch (String.append a b).
Proof. reflexivity. Qed.

Lemma append_empty_l (a : string) : String.append EmptyString a = a.
Proof. reflexivity. Qed.

Lemma append_assoc (a b c : string) :
  String.append (String.append a b) c = String.append a (String.append b c).
Proof.
  induction a as [|ch a IH]; [reflexivity|].
  rewrite !append_cons. now f_equal.
Qed.

Lemma append_empty_r (a : string) : String.append a EmptyString = a.
Proof.
  induction a as [|ch a IH]; [reflexivity|].
  rewrite append_cons. now f_equal.
Qed.

Lemma prefix_placeholder (ch : ascii) (s : string) :
  String.prefix Placeholder (String ch s) = Ascii.eqb ch "?".
Proof.
  change (String.prefix Placeholder (String ch s))
    with (if ascii_dec "?" ch then String.prefix EmptyString s else false).
  destruct (ascii_dec "?" ch) as [<- | Hne].
  - now destruct s.
  - symmetry. apply Ascii.eqb_neq. congruence.
Qed.

Lemma Count_cons (ch : ascii) (s : string) :
  strings.Count (String ch s) Placeholder
  = (if Ascii.eqb ch "?" then 1 else 0) + strings.Count s Placeholder.
Proof.
  unfold strings.Count.
  change (strings.count_from 0 (String ch s) Placeholder)
    with (if String.prefix Placeholder (String ch s)
          then 1 + strings.count_from 0 s Placeholder
          else strings.count_from 0 s Placeholder).
  rewrite prefix_placeholder.
  now destruct (Ascii.eqb ch "?").
Qed.

Lemma Count_nonneg (s : string) : 0 <= strings.Count s Placeholder.
Proof.
  induction s as [|ch s IH]; [now cbn|].
  rewrite Count_cons. destruct (Ascii.eqb ch "?"); lia.
Qed.

Lemma Index_cons (ch : ascii) (s : string) :
  strings.Index (String ch s) Placeholder
  = if Ascii.eqb ch "?" then 0
    else let i := strings.Index s Placeholder in
         if i <? 0 then -1 else i + 1.
Proof.
  change (strings.Index (String ch s) Placeholder)
    with (if String.prefix Placeholder (String ch s) then 0
          else let i := strings.Index s Placeholder in
               if i <? 0 then -1 else i + 1).
  now rewrite prefix_placeholder.
Qed.

Lemma slice_to_nat (s : string) (n : nat) :
  strings.slice_to s (Z.of_nat n) = strings.take n s.
Proof.
  unfold strings.slice_to.
  destruct (Z.ltb_spec (Z.of_nat n) 0) as [H|H]; [lia|].
  now rewrite Nat2Z.id.
Qed.

Lemma slice_from_succ (s : string) (n : nat) :
  strings.slice_from s (Z.of_nat n + 1) = strings.drop (S n) s.
Proof.
  unfold strings.slice_from.
  destruct (Z.ltb_spec (Z.of_nat n + 1) 0) as [H|H]; [lia|].
  now replace (Z.to_nat (Z.of_nat n + 1)) with (S n) by lia.
Qed.

(** A string with at least one placeholder splits at the first one, and
    [strings.Index] with the two slicings of [Q] computes that split. *)
Lemma first_placeholder (s : string) :
  0 < strings.Count s Placeholder ->
  exists pre post,
    strings.Index s Placeholder = Z.of_nat (String.length pre)
    /\ (String.length pre < String.length s)%nat
    /\ strings.slice_to s (Z.of_nat (String.length pre)) = Some pre
    /\ strings.slice_from s (Z.of_nat (String.length pre) + 1) = Some post
    /\ strings.Count post Placeholder = strings.Count s Placeholder - 1
    /\ forall arg rest,
         Spec.rewrite s (arg :: rest)
         = String.append pre
             (String.append (Spec.arg_placeholders arg) (Spec.rewrite post rest)).
Proof.
  induction s as [|ch s IH]; [cbn; lia|].
  rewrite Count_cons, Index_cons. intros Hc.
  destruct (Ascii.eqb ch "?") eqn:E.
  - exists EmptyString, s.
    rewrite slice_to_nat, slice_from_succ.
    repeat split.
    + cbn [String.length]. lia.
    + lia.
    + intros arg rest. cbn [Spec.rewrite]. now rewrite E.
  - destruct (IH ltac:(lia)) as (pre & post & Hi & Hlt & Ht & Hd & Hcnt & Hrw).
    rewrite slice_to_nat in Ht. rewrite slice_from_succ in Hd.
    exists (String ch pre), post.
    rewrite slice_to_nat, slice_from_succ.
    cbv zeta. rewrite Hi.
    destruct (Z.ltb_spec (Z.of_nat (String.length pre)) 0) as [Hneg|_]; [lia|].
    cbn [String.length strings.take strings.drop]. rewrite Ht.
    repeat split.
    + lia.
    + lia.
    + exact Hd.
    + lia.
    + intros arg rest. cbn [Spec.rewrite]. rewrite E, Hrw. reflexivity.
Qed.

Lemma rewrite_no_args (s : string) : Spec.rewrite s [] = s.
Proof.
  induction s as [|ch s IH]; [reflexivity|].
  cbn [Spec.rewrite]. rewrite IH. now destruct (Ascii.eqb ch "?").
Qed.

(** What [Q] writes for a slice of length [S n]: one placeholder and
    [n] times [",?"], that is [S n] placeholders joined by commas. *)
Lemma placeholders_joined (n : nat) :
  String.append Placeholder
    (strings.repeat_nat (String.append "," Placeholder) n)
  = String.concat "," (List.repeat Placeholder (S n)).
Proof.
  induction n as [|n IH]; [reflexivity|].
  change (List.repeat Placeholder (S (S n)))
    with (Placeholder :: List.repeat Placeholder (S n)).
  change (String.concat "," (Placeholder :: List.repeat Placeholder (S n)))
    with (String.append Placeholder
            (String.append "," (String.concat "," (List.repeat Placeholder (S n))))).
  rewrite <- IH. reflexivity.
Qed.

End PlaceholderFacts.

(** ** One iteration of the loop of [Q] *)

Section QLoop.

Variable sqlText : string.

Lemma Repeat_pred (s : string) (n : nat) :
  strings.Repeat s (Z.of_nat (S n) - 1) = Some (strings.repeat_nat s n).
Proof.
  unfold strings.Repeat.
  destruct (Z.ltb_spec (Z.of_nat (S n) - 1) 0) as [H|H]; [lia|].
  now replace (Z.to_nat (Z.of_nat (S n) - 1)) with n by lia.
Qed.

Lemma Q_loop_nil rest c_args buffer remainingSQL :
  exists c,
    Q_loop sqlText (VNil :: rest) c_args buffer remainingSQL = Some c
    /\ err c = Some (nil_argument_error sqlText).
Proof. eexists; split; reflexivity. Qed.

Section Found.

Variables (remainingSQL pre post : string).
Hypothesis Hindex :
  strings.Index remainingSQL Placeholder = Z.of_nat (String.length pre).
Hypothesis Hto :
  strings.slice_to remainingSQL (Z.of_nat (String.length pre)) = Some pre.
Hypothesis Hfrom :
  strings.slice_from remainingSQL (Z.of_nat (String.length pre) + 1) = Some post.

Lemma Q_loop_empty_slice rest c_args buffer :
  exists c,
    Q_loop sqlText (VSlice [] :: rest) c_args buffer remainingSQL = Some c
    /\ err c = Some (empty_slice_error sqlText).
Proof.
  cbn [Q_loop is_nil]. cbv zeta. rewrite Hindex, Hto, Hfrom.
  eexists; split; reflexivity.
Qed.

Lemma Q_loop_step arg rest c_args buffer :
  accepted arg ->
  Q_loop sqlText (arg :: rest) c_args buffer remainingSQL
  = Q_loop sqlText rest (c_args ++ Spec.arg_values arg)
      (String.append (String.append buffer pre) (Spec.arg_placeholders arg))
      post.
Proof.
  intros [Hnil Hempty].
  destruct arg as [| n | s | b | [|x l]]; try congruence;
    cbn [Q_loop is_nil]; cbv zeta; rewrite Hindex, Hto, Hfrom;
    try reflexivity.
  cbn [is_slice reflect.TypeOf reflect.Kind_eqb reflect.elements].
  destruct (Z.eqb_spec (Z.of_nat (List.length (x :: l))) 0) as [H0|_];
    [cbn [List.length] in H0; lia|].
  cbn [List.length]. rewrite Repeat_pred, placeholders_joined.
  reflexivity.
Qed.

End Found.

End QLoop.

(** ** [Q] on accepted arguments *)

Lemma arg_values_length (arg : value) :
  List.length (Spec.arg_values arg) = Spec.arg_count arg.
Proof. now destruct arg. Qed.

Lemma flatten_length (arguments : list value) :
  List.length (Spec.flatten arguments)
  = list_sum (List.map Spec.arg_count arguments).
Proof.
  induction arguments as [|arg rest IH]; [reflexivity|].
  unfold list_sum in *.
  cbn [Spec.flatten flat_map List.map fold_right].
  rewrite List.length_app, arg_values_length. f_equal. exact IH.
Qed.

Lemma Q_loop_accepted (sqlText : string) (arguments : list value) :
  forall c_args buffer remainingSQL,
    strings.Count remainingSQL Placeholder = Z.of_nat (List.length arguments) ->
    Forall accepted arguments ->
    Q_loop sqlText arguments c_args buffer remainingSQL
    = Some (mkCondition None
              (String.append buffer (Spec.rewrite remainingSQL arguments))
              (c_args ++ Spec.flatten arguments)).
Proof.
  induction arguments as [|arg rest IH]; intros c_args buffer remainingSQL Hcount Hok.
  - cbn [Q_loop Spec.flatten flat_map].
    now rewrite rewrite_no_args, List.app_nil_r.
  - inversion Hok as [|? ? Harg Hrest]; subst.
    cbn [List.length] in Hcount.
    destruct (first_placeholder remainingSQL ltac:(lia))
      as (pre & post & Hi & _ & Hto & Hfrom & Hpost & Hrw).
    rewrite (Q_loop_step sqlText remainingSQL pre post Hi Hto Hfrom) by exact Harg.
    rewrite IH by (trivial; lia).
    rewrite Hrw, !append_assoc.
    cbn [Spec.flatten flat_map]. now rewrite List.app_assoc.
Qed.

Lemma Q_counted (sqlText : string) (arguments : list value) :
  strings.Count sqlText Placeholder = Z.of_nat (List.length arguments) ->
  Q sqlText arguments = Q_loop sqlText arguments [] EmptyString sqlText.
Proof. intros Hcount. unfold Q. now rewrite Hcount, Z.eqb_refl. Qed.

(** C1. When the fragment has as many placeholders as there are
    arguments, none of them nil or an empty slice, [Q] returns a
    condition without error; its argument list is the arguments with
    every slice replaced by its elements, so its length counts a scalar
    once and a slice by its length; its fragment has, in place of the
    placeholder of each slice of length N, N placeholders joined by
    commas. *)
Theorem Q_expands_slices (sqlText : string) (arguments : list value) :
  strings.Count sqlText Placeholder = Z.of_nat (List.length arguments) ->
  Forall accepted arguments ->
  exists c,
    Q sqlText arguments = Some c
    /\ Err c = None
    /\ List.length (args c) = list_sum (List.map Spec.arg_count arguments)
    /\ args c = Spec.flatten arguments
    /\ sql c = Spec.rewrite sqlText arguments.
Proof.
  intros Hcount Hok.
  rewrite (Q_counted _ _ Hcount), (Q_loop_accepted _ _ _ _ _ Hcount Hok).
  eexists; split; [reflexivity|].
  cbn [Err err args sql List.app]. repeat split.
  apply flatten_length.
Qed.

(** The example of the specification:
    [Q("x = ? AND y IN (?)", 5, []int{1,2,3})]. *)
Lemma Q_expands_slices_witness :
  exists c,
    Q "x = ? AND y IN (?)" [VInt 5; VSlice [VInt 1; VInt 2; VInt 3]] = Some c
    /\ Err c = None
    /\ List.length (args c) = 4%nat
    /\ args c = [VInt 5; VInt 1; VInt 2; VInt 3]
    /\ sql c = "x = ? AND y IN (?,?,?)"%string.
Proof.
  apply (Q_expands_slices
           "x = ? AND y IN (?)" [VInt 5; VSlice [VInt 1; VInt 2; VInt 3]]).
  - reflexivity.
  - repeat constructor; discriminate.
Defined.

(** ** [Q] on rejected arguments *)

Lemma arg_cases (arg : value) :
  arg = VNil \/ arg = VSlice [] \/ accepted arg.
Proof.
  destruct arg as [| n | s | b | [|x l]]; auto;
    right; right; split; discriminate.
Qed.

Lemma Q_loop_rejected (sqlText : string) (arguments : list value) :
  forall c_args buffer remainingSQL,
    strings.Count remainingSQL Placeholder = Z.of_nat (List.length arguments) ->
    In VNil arguments \/ In (VSlice []) arguments ->
    exists c,
      Q_loop sqlText arguments c_args buffer remainingSQL = Some c
      /\ Err c <> None.
Proof.
  induction arguments as [|arg rest IH]; intros c_args buffer remainingSQL Hcount Hbad.
  - destruct Hbad as [[]|[]].
  - cbn [List.length] in Hcount.
    destruct (arg_cases arg) as [-> | [-> | Harg]].
    + destruct (Q_loop_nil sqlText rest c_args buffer remainingSQL) as (c & Hc & He).
      exists c. split; [exact Hc|]. unfold Err. rewrite He. discriminate.
    + destruct (first_placeholder remainingSQL ltac:(lia))
        as (pre & post & Hi & _ & Hto & Hfrom & _).
      destruct (Q_loop_empty_slice sqlText remainingSQL pre post Hi Hto Hfrom
                  rest c_args buffer) as (c & Hc & He).
      exists c. split; [exact Hc|]. unfold Err. rewrite He. discriminate.
    + destruct (first_placeholder remainingSQL ltac:(lia))
        as (pre & post & Hi & _ & Hto & Hfrom & Hpost & _).
      rewrite (Q_loop_step sqlText remainingSQL pre post Hi Hto Hfrom) by exact Harg.
      apply IH; [lia|].
      destruct Harg as [Hnil Hempty].
      destruct Hbad as [[Heq|Hin]|[Heq|Hin]]; auto; congruence.
Qed.

(** C2. A number of placeholders different from the number of
    arguments, a nil argument or an empty slice among the arguments:
    in each case [Q] returns (it does not panic) a condition whose
    [Err()] is not nil. *)
Theorem Q_poisons (sqlText : string) (arguments : list value) :
  strings.Count sqlText Placeholder <> Z.of_nat (List.length arguments)
  \/ In VNil arguments
  \/ In (VSlice []) arguments ->
  exists c, Q sqlText arguments = Some c /\ Err c <> None.
Proof.
  intros Hbad.
  destruct (Z.eq_dec (strings.Count sqlText Placeholder)
                     (Z.of_nat (List.length arguments))) as [Hcount|Hcount].
  - rewrite (Q_counted _ _ Hcount).
    apply Q_loop_rejected; [exact Hcount|].
    destruct Hbad as [Hne|[Hin|Hin]]; auto. contradiction.
  - unfold Q. apply Z.eqb_neq in Hcount. rewrite Hcount. cbn [negb].
    eexists; split; [reflexivity|]. discriminate.
Qed.

(** [Q("a=?", nil)] and [Q("a=?", []int{})]. *)
Lemma Q_poisons_witness :
  (exists c, Q "a=?" [VNil] = Some c /\ Err c <> None)
  /\ (exists c, Q "a=?" [VSlice []] = Some c /\ Err c <> None).
Proof.
  split.
  - apply (Q_poisons "a=?" [VNil]). right; left. left; reflexivity.
  - apply (Q_poisons "a=?" [VSlice []]). right; right. left; reflexivity.
Defined.

(** ** [Q] does not panic *)

Lemma Q_loop_in_bounds (sqlText : string) (arguments : list value) :
  forall c_args buffer remainingSQL,
    strings.Count remainingSQL Placeholder = Z.of_nat (List.length arguments) ->
    Forall in_bounds (Q_positions arguments remainingSQL)
    /\ exists c, Q_loop sqlText arguments c_args buffer remainingSQL = Some c.
Proof.
  induction arguments as [|arg rest IH]; intros c_args buffer remainingSQL Hcount.
  - split; [constructor | eexists; reflexivity].
  - cbn [List.length] in Hcount.
    destruct (arg_cases arg) as [-> | [-> | Harg]].
    + split; [constructor|].
      destruct (Q_loop_nil sqlText rest c_args buffer remainingSQL) as (c & Hc & _).
      now exists c.
    + destruct (first_placeholder remainingSQL ltac:(lia))
        as (pre & post & Hi & Hlt & Hto & Hfrom & _).
      split.
      * cbn [Q_positions is_nil]. cbv zeta. rewrite Hi, Hto, Hfrom.
        constructor; [|constructor].
        unfold in_bounds; cbn [fst snd]. lia.
      * destruct (Q_loop_empty_slice sqlText remainingSQL pre post Hi Hto Hfrom
                    rest c_args buffer) as (c & Hc & _).
        now exists c.
    + destruct (first_placeholder remainingSQL ltac:(lia))
        as (pre & post & Hi & Hlt & Hto & Hfrom & Hpost & _).
      rewrite (Q_loop_step sqlText remainingSQL pre post Hi Hto Hfrom) by exact Harg.
      destruct (IH (c_args ++ Spec.arg_values arg)
                  (String.append (String.append buffer pre) (Spec.arg_placeholders arg))
                  post ltac:(lia)) as [Hpos Hres].
      split; [|exact Hres].
      assert (Hgo : Q_positions (arg :: rest) remainingSQL
                    = (Z.of_nat (String.length pre),
                       Z.of_nat (String.length remainingSQL))
                      :: Q_positions rest post).
      { destruct Harg as [Hnil Hempty].
        destruct arg as [| n | s | b | [|x l]]; try congruence;
          cbn [Q_positions is_nil]; cbv zeta; rewrite Hi, Hto, Hfrom;
          reflexivity. }
      rewrite Hgo. constructor; [|exact Hpos].
      unfold in_bounds; cbn [fst snd]. lia.
Qed.

(** C10. When the fragment has as many placeholders as there are
    arguments, [strings.Index] finds a placeholder in every iteration of
    the loop of [Q]: the index is never [-1] and lies inside the string
    searched, so both slicings are in bounds and [Q] returns a
    condition instead of panicking. *)
Theorem Q_never_out_of_range (sqlText : string) (arguments : list value) :
  strings.Count sqlText Placeholder = Z.of_nat (List.length arguments) ->
  Forall in_bounds (Q_positions arguments sqlText)
  /\ exists c, Q sqlText arguments = Some c.
Proof.
  intros Hcount. rewrite (Q_counted _ _ Hcount).
  now apply Q_loop_in_bounds.
Qed.

Lemma Q_never_out_of_range_witness :
  Forall in_bounds
    (Q_positions [VInt 5; VSlice [VInt 1; VInt 2; VInt 3]] "x = ? AND y IN (?)")
  /\ exists c,
       Q "x = ? AND y IN (?)" [VInt 5; VSlice [VInt 1; VInt 2; VInt 3]] = Some c.
Proof.
  exact (Q_never_out_of_range
           "x = ? AND y IN (?)" [VInt 5; VSlice [VInt 1; VInt 2; VInt 3]] eq_refl).
Defined.

(** ** [And], [Or] and [Not] *)

Section Combinators.

Lemma And_several (a b : Condition) (rest : list Condition) :
  And (a :: b :: rest)
  = match sumOfConditionsLengths (a :: b :: rest) with
    | (_, _, Some e) => mkCondition (Some e) EmptyString []
    | (_, _, None) =>
        mkCondition None
          (joinSQL EmptyString " AND " (a :: b :: rest))
          (joinArgs [] (a :: b :: rest))
    end.
Proof.
  unfold And. now destruct (sumOfConditionsLengths (a :: b :: rest)) as [[? ?] [?|]].
Qed.

Lemma Or_several (a b : Condition) (rest : list Condition) :
  Or (a :: b :: rest)
  = match sumOfConditionsLengths (a :: b :: rest) with
    | (_, _, Some e) => mkCondition (Some e) EmptyString []
    | (_, _, None) =>
        mkCondition None
          (String.append (joinSQL "(" " OR " (a :: b :: rest)) ")")
          (joinArgs [] (a :: b :: rest))
    end.
Proof.
  unfold Or. now destruct (sumOfConditionsLengths (a :: b :: rest)) as [[? ?] [?|]].
Qed.

Lemma several (conditions : list Condition) :
  (2 <= List.length conditions)%nat ->
  exists a b rest, conditions = a :: b :: rest.
Proof.
  destruct conditions as [|a [|b rest]]; cbn [List.length]; intros H; try lia.
  now exists a, b, rest.
Qed.

(** The loop of [sumOfConditionsLengths] stops at the first error. *)
Lemma sumOfConditionsLengths_first (before : list Condition) :
  forall (c : Condition) (after : list Condition) (e : error) (n m : Z),
    Forall (fun x => Err x = None) before ->
    Err c = Some e ->
    sumOfConditionsLengths_loop n m (before ++ c :: after) = (0, 0, Some e).
Proof.
  induction before as [|x before IH]; intros c after e n m Hbefore Hc.
  - cbn [List.app sumOfConditionsLengths_loop]. unfold Err in Hc. now rewrite Hc.
  - inversion Hbefore as [|? ? Hx Hrest]; subst.
    cbn [List.app sumOfConditionsLengths_loop]. unfold Err in Hx. rewrite Hx.
    now apply IH.
Qed.

Lemma sumOfConditionsLengths_none (conditions : list Condition) :
  forall n m : Z,
    Forall (fun x => Err x = None) conditions ->
    exists n' m', sumOfConditionsLengths_loop n m conditions = (n', m', None).
Proof.
  induction conditions as [|x conditions IH]; intros n m Hall.
  - now exists n, m.
  - inversion Hall as [|? ? Hx Hrest]; subst.
    cbn [sumOfConditionsLengths_loop]. unfold Err in Hx. rewrite Hx.
    now apply IH.
Qed.

(** [joinSQL] is [strings.Join] appended to the buffer. *)
Lemma joinSQL_loop_concat (conjunction : string) (rest : list Condition) :
  forall (buffer fragment : string),
    joinSQL_loop (String.append buffer fragment) false conjunction rest
    = String.append buffer
        (String.concat conjunction (fragment :: List.map sql rest)).
Proof.
  induction rest as [|c rest IH]; intros buffer fragment.
  - reflexivity.
  - cbn [joinSQL_loop negb List.map]. rewrite IH.
    change (String.concat conjunction (fragment :: sql c :: List.map sql rest))
      with (String.append fragment
              (String.append conjunction
                 (String.concat conjunction (sql c :: List.map sql rest)))).
    now rewrite !append_assoc.
Qed.

Lemma joinSQL_joined (buffer conjunction : string) (conditions : list Condition) :
  joinSQL buffer conjunction conditions
  = String.append buffer (Spec.joined conjunction conditions).
Proof.
  unfold joinSQL, Spec.joined. destruct conditions as [|c rest].
  - cbn [joinSQL_loop List.map String.concat]. now rewrite append_empty_r.
  - cbn [joinSQL_loop negb List.map]. apply joinSQL_loop_concat.
Qed.

Lemma joinArgs_concat (conditions : list Condition) :
  forall arguments : list value,
    joinArgs arguments conditions = arguments ++ Spec.all_args conditions.
Proof.
  unfold Spec.all_args.
  induction conditions as [|c rest IH]; intros arguments.
  - cbn [joinArgs List.map List.concat]. now rewrite List.app_nil_r.
  - cbn [joinArgs List.map List.concat]. now rewrite IH, List.app_assoc.
Qed.

End Combinators.

(** C3. [And] and [Or] of two or more conditions, one of them poisoned:
    the result holds the error of the first poisoned condition in
    argument order, and neither a fragment nor arguments.  [Not] of a
    poisoned condition is that condition. *)
Theorem poison_propagates :
  (forall (before : list Condition) (c : Condition) (after : list Condition)
          (e : error),
      (2 <= List.length (before ++ c :: after))%nat ->
      Forall (fun x => Err x = None) before ->
      Err c = Some e ->
      And (before ++ c :: after) = mkCondition (Some e) EmptyString []
      /\ Or (before ++ c :: after) = mkCondition (Some e) EmptyString [])
  /\ (forall c : Condition, Err c <> None -> Not c = c).
Proof.
  split.
  - intros before c after e Hlen Hbefore Hc.
    destruct (several _ Hlen) as (a & b & rest & Heq).
    rewrite Heq, And_several, Or_several, <- Heq.
    unfold sumOfConditionsLengths.
    now rewrite (sumOfConditionsLengths_first before c after e 0 0 Hbefore Hc).
  - intros c Hc. unfold Not, Err in *. now destruct (err c).
Qed.

Lemma poison_propagates_witness :
  let ok := mkCondition None "a=?" [VInt 1] in
  let bad1 := mkCondition (Some (nil_argument_error "b=?")) EmptyString [] in
  let bad2 := mkCondition (Some (empty_slice_error "c=?")) EmptyString [] in
  And [ok; bad1; bad2] = bad1
  /\ Or [ok; bad1; bad2] = bad1
  /\ Not bad2 = bad2.
Proof.
  intros ok bad1 bad2.
  destruct poison_propagates as [Hjoin Hnot].
  destruct (Hjoin [ok] bad1 [bad2] (nil_argument_error "b=?")) as [Hand Hor].
  - cbn; lia.
  - repeat constructor.
  - reflexivity.
  - split; [exact Hand | split; [exact Hor |]].
    apply Hnot. discriminate.
Defined.

(** C4. [And] and [Or] of two or more conditions without error: the
    fragments in argument order with [" AND "], respectively [" OR "],
    between them, in parentheses for [Or] only; the arguments of the
    conditions concatenated in the same order; no error. *)
Theorem And_Or_join (conditions : list Condition) :
  (2 <= List.length conditions)%nat ->
  Forall (fun c => Err c = None) conditions ->
  And conditions
  = mkCondition None (Spec.joined " AND " conditions) (Spec.all_args conditions)
  /\ Or conditions
     = mkCondition None
         (String.append "(" (String.append (Spec.joined " OR " conditions) ")"))
         (Spec.all_args conditions).
Proof.
  intros Hlen Hall.
  destruct (several _ Hlen) as (a & b & rest & Heq).
  destruct (sumOfConditionsLengths_none conditions 0 0 Hall) as (n & m & Hsum).
  rewrite Heq, And_several, Or_several, <- Heq.
  unfold sumOfConditionsLengths. rewrite Hsum.
  rewrite !joinSQL_joined, !joinArgs_concat, append_assoc.
  split; reflexivity.
Qed.

Lemma And_Or_join_witness :
  And [mkCondition None "a=?" [VInt 1]; mkCondition None "b=?" [VInt 2]]
  = mkCondition None "a=? AND b=?" [VInt 1; VInt 2]
  /\ Or [mkCondition None "a=?" [VInt 1]; mkCondition None "b=?" [VInt 2]]
     = mkCondition None "(a=? OR b=?)" [VInt 1; VInt 2].
Proof.
  apply (And_Or_join
           [mkCondition None "a=?" [VInt 1]; mkCondition None "b=?" [VInt 2]]).
  - cbn; lia.
  - repeat constructor.
Defined.

(** C5. [And] and [Or] of exactly one condition return that condition,
    poisoned or not: same fragment, same arguments, same error. *)
Theorem And_Or_identity (c : Condition) :
  And [c] = c /\ Or [c] = c.
Proof. split; reflexivity. Qed.

(** C6. [Not] of a condition without error: the fragment between
    ["NOT ("] and [")"], the same arguments, no error. *)
Theorem Not_wraps (c : Condition) :
  Err c = None ->
  Not c
  = mkCondition None
      (String.append "NOT (" (String.append (sql c) ")")) (args c).
Proof.
  unfold Not, Err. intros ->. now rewrite append_assoc.
Qed.

Lemma Not_wraps_witness :
  Not (mkCondition None "a=?" [VInt 1])
  = mkCondition None "NOT (a=?)" [VInt 1].
Proof.
  apply (Not_wraps (mkCondition None "a=?" [VInt 1])). reflexivity.
Defined.

(** ** [Clone] *)

Section CloneFacts.

Variable defaultSize : Z.

Lemma fresh_unused {A : Type} (m : gmap loc A) : m !! fresh (dom m) = None.
Proof. apply not_elem_of_dom, is_fresh. Qed.

(** C8. [Clone] allocates a new DB that has the [sqlDB] of the
    original, no transaction, a consumed time of zero and two statement
    caches allocated by the call (distinct from each other and from both
    caches of the original, empty, with the size and the enabled flag of
    the original's); no object of the store that existed before the call
    is changed, the original DB and its caches among them. *)
Theorem Clone_independent (st : Store) (db : loc) (d : DB)
    (cDB cTx : StmtCache) :
  dbs st !! db = Some d ->
  stmtCaches st !! stmtCacheDB d = Some cDB ->
  stmtCaches st !! stmtCacheTx d = Some cTx ->
  exists (clone : loc) (st' : Store) (d' : DB),
    Clone defaultSize db st = Some (clone, st')
    /\ dbs st !! clone = None
    /\ dbs st' !! clone = Some d'
    /\ sqlDB d' = sqlDB d
    /\ sqlTx d' = None
    /\ consumedTime d' = 0
    /\ ConsumedTime clone st' = Some 0
    /\ stmtCaches st !! stmtCacheDB d' = None
    /\ stmtCaches st !! stmtCacheTx d' = None
    /\ stmtCacheDB d' <> stmtCacheTx d'
    /\ stmtCacheDB d' <> stmtCacheDB d /\ stmtCacheDB d' <> stmtCacheTx d
    /\ stmtCacheTx d' <> stmtCacheDB d /\ stmtCacheTx d' <> stmtCacheTx d
    /\ stmtCaches st' !! stmtCacheDB d'
       = Some (mkStmtCache (isEnabled cDB) (maxSize cDB) [])
    /\ stmtCaches st' !! stmtCacheTx d'
       = Some (mkStmtCache (isEnabled cTx) (maxSize cTx) [])
    /\ dbs st' !! db = Some d
    /\ (forall p x, dbs st !! p = Some x -> dbs st' !! p = Some x)
    /\ (forall p x, stmtCaches st !! p = Some x -> stmtCaches st' !! p = Some x).
Proof.
  intros Hdb HcDB HcTx.
  unfold Clone. rewrite Hdb. cbn [mbind option_bind].
  unfold newStmtCache, new_DB, set_stmtCaches, set_dbs. cbn [dbs stmtCaches].
  set (q := fresh (dom (dbs st))).
  set (p1 := fresh (dom (stmtCaches st))).
  set (c1 := <[p1 := mkStmtCache true defaultSize []]> (stmtCaches st)).
  set (p2 := fresh (dom c1)).
  assert (Hq : dbs st !! q = None) by apply fresh_unused.
  assert (H1 : stmtCaches st !! p1 = None) by apply fresh_unused.
  assert (H2 : c1 !! p2 = None) by apply fresh_unused.
  assert (H12 : p1 <> p2).
  { intros E. rewrite <- E in H2. unfold c1 in H2.
    now rewrite lookup_insert_eq in H2. }
  assert (H2' : stmtCaches st !! p2 = None).
  { unfold c1 in H2. now rewrite lookup_insert_ne in H2. }
  assert (HD1 : p1 <> stmtCacheDB d) by congruence.
  assert (HD2 : p2 <> stmtCacheDB d) by congruence.
  assert (HT1 : p1 <> stmtCacheTx d) by congruence.
  assert (HT2 : p2 <> stmtCacheTx d) by congruence.
  assert (Hframe : forall p x, stmtCaches st !! p = Some x -> p <> p1 /\ p <> p2).
  { intros p x Hp. split; congruence. }
  assert (Hframe' : forall p x, dbs st !! p = Some x -> p <> q).
  { intros p x Hp. congruence. }
  unfold GetSize, SetSize, IsEnabled, Disable, set_stmtCaches, c1.
  cbn [dbs stmtCaches].
  simplify_map_eq.
  exists q.
  destruct (isEnabled cDB) eqn:EDB; simplify_map_eq;
    destruct (isEnabled cTx) eqn:ETx; simplify_map_eq;
    (eexists;
     exists (mkDB (adapter d) (sqlDB d) None (logger d) 0
                  (defaultTableNamer d) p1 p2 (useErrorParser d));
     split; [reflexivity|]);
    unfold ConsumedTime; cbn [dbs stmtCaches];
    simplify_map_eq; cbn [sqlDB sqlTx consumedTime stmtCacheDB stmtCacheTx];
    repeat split; try done;
    try (intros p x Hp; pose proof (Hframe' _ _ Hp); now simplify_map_eq);
    try (intros p x Hp; pose proof (Hframe _ _ Hp) as [? ?]; now simplify_map_eq).
Qed.
End CloneFacts.

Lemma Clone_independent_witness :
  exists (clone : loc) (st' : Store) (d' : DB),
    Clone 64 0%nat example_store = Some (clone, st')
    /\ dbs st' !! clone = Some d'
    /\ sqlDB d' = Some 7%nat
    /\ sqlTx d' = None
    /\ ConsumedTime clone st' = Some 0
    /\ stmtCacheDB d' <> 0%nat /\ stmtCacheTx d' <> 1%nat
    /\ stmtCaches st' !! stmtCacheDB d' = Some (mkStmtCache false 64 [])
    /\ stmtCaches st' !! stmtCacheTx d' = Some (mkStmtCache true 64 [])
    /\ dbs st' !! 0%nat = Some example_DB.
Proof.
  destruct (Clone_independent 64 example_store 0%nat example_DB
              (mkStmtCache false 64 []) (mkStmtCache true 64 [])
              eq_refl eq_refl eq_refl)
    as (clone & st' & d' & Hclone & _ & Hd' & HsqlDB & HsqlTx & _ & Htime
        & _ & _ & _ & HDB & _ & _ & HTx & HcDB & HcTx & Hdb & _).
  exists clone, st', d'. repeat split; assumption.
Defined.

(** ** Consumed time *)

Lemma wrap_int64_small (z : Z) : in_int64 z -> wrap_int64 z = z.
Proof.
  unfold in_int64, min_int64, max_int64, wrap_int64. intros H.
  rewrite Z.mod_small; lia.
Qed.

Lemma ConsumedTime_add (db : loc) (st : Store) (t duration : Z) :
  ConsumedTime db st = Some t ->
  exists st',
    addConsumedTime db duration st = Some st'
    /\ ConsumedTime db st' = Some (wrap_int64 (t + duration)).
Proof.
  unfold ConsumedTime, addConsumedTime. intros Ht.
  destruct (dbs st !! db) as [d|] eqn:Hd; [|discriminate].
  injection Ht as <-. cbn [mbind option_bind].
  eexists; split; [reflexivity|].
  unfold set_dbs. cbn [dbs]. now rewrite lookup_insert_eq.
Qed.

Lemma ConsumedTime_reset (db : loc) (st : Store) (t : Z) :
  ConsumedTime db st = Some t ->
  exists st',
    ResetConsumedTime db st = Some st' /\ ConsumedTime db st' = Some 0.
Proof.
  unfold ConsumedTime, ResetConsumedTime. intros Ht.
  destruct (dbs st !! db) as [d|] eqn:Hd; [|discriminate].
  cbn [mbind option_bind].
  eexists; split; [reflexivity|].
  unfold set_dbs. cbn [dbs]. now rewrite lookup_insert_eq.
Qed.

Lemma total_nonneg (durations : list Z) :
  Forall (fun duration => 0 <= duration) durations -> 0 <= total durations.
Proof.
  induction 1 as [|duration rest Hd _ IH]; cbn [total fold_right]; [lia|].
  unfold total in IH. lia.
Qed.

Lemma total_app (durations more : list Z) :
  total (durations ++ more) = total durations + total more.
Proof.
  induction durations as [|duration rest IH]; [reflexivity|].
  cbn [List.app total fold_right]. fold (total (rest ++ more)) (total rest).
  rewrite IH. lia.
Qed.

Lemma ConsumedTime_add_all (db : loc) (durations : list Z) :
  forall (st : Store) (t : Z),
    ConsumedTime db st = Some t ->
    0 <= t ->
    Forall (fun duration => 0 <= duration) durations ->
    t + total durations <= max_int64 ->
    exists st',
      add_all db durations st = Some st'
      /\ ConsumedTime db st' = Some (t + total durations).
Proof.
  induction durations as [|duration rest IH]; intros st t Ht Hpos Hall Hmax.
  - exists st. cbn [add_all total fold_right]. split; [reflexivity|].
    now rewrite Z.add_0_r.
  - inversion Hall as [|? ? Hd Hrest]; subst.
    pose proof (total_nonneg rest Hrest) as Hsum.
    cbn [total fold_right] in Hmax |- *. fold (total rest) in Hmax |- *.
    destruct (ConsumedTime_add db st t duration Ht) as (st1 & Hadd & Ht1).
    rewrite wrap_int64_small in Ht1
      by (unfold in_int64, min_int64, max_int64 in *; lia).
    destruct (IH st1 (t + duration) Ht1 ltac:(lia) Hrest ltac:(lia))
      as (st' & Hall' & Ht').
    exists st'. cbn [add_all]. rewrite Hadd. cbn [mbind option_bind].
    split; [exact Hall'|]. rewrite Ht'. f_equal. lia.
Qed.

(** C9, as the claim states it, fails: a DB that has consumed
    [max_int64] nanoseconds and is charged one more reads [min_int64]. *)
Lemma ConsumedTime_overflow :
  exists st1 st2 : Store,
    0 <= max_int64 /\ 0 <= 1
    /\ ConsumedTime 0%nat example_store = Some 0
    /\ addConsumedTime 0%nat max_int64 example_store = Some st1
    /\ ConsumedTime 0%nat st1 = Some max_int64
    /\ addConsumedTime 0%nat 1 st1 = Some st2
    /\ ConsumedTime 0%nat st2 = Some min_int64
    /\ min_int64 < max_int64.
Proof.
  eexists. eexists.
  split; [unfold max_int64; lia|]. split; [lia|].
  split; [reflexivity|]. split; [reflexivity|]. split; [reflexivity|].
  split; [reflexivity|]. split; [reflexivity|].
  unfold min_int64, max_int64; lia.
Qed.

(** C9, amended.  While the total stays within the range of
    [time.Duration], the consumed time of a DB that is charged
    non-negative durations never decreases: after more additions it is
    what it was plus what was added.  [ResetConsumedTime] sets it to
    zero, and additions do not: once positive it stays positive. *)
Theorem ConsumedTime_monotone (db : loc) (st : Store) (t : Z)
    (durations more : list Z) :
  ConsumedTime db st = Some t ->
  0 <= t ->
  Forall (fun duration => 0 <= duration) (durations ++ more) ->
  t + total (durations ++ more) <= max_int64 ->
  exists (st1 st2 st3 : Store) (t1 t2 : Z),
    add_all db durations st = Some st1
    /\ ConsumedTime db st1 = Some t1
    /\ add_all db more st1 = Some st2
    /\ ConsumedTime db st2 = Some t2
    /\ t1 = t + total durations
    /\ t2 = t1 + total more
    /\ t <= t1 <= t2
    /\ (0 < t1 -> t2 <> 0)
    /\ ResetConsumedTime db st2 = Some st3
    /\ ConsumedTime db st3 = Some 0.
Proof.
  intros Ht Hpos Hall Hmax.
  apply Forall_app in Hall as [Hd Hm].
  pose proof (total_nonneg _ Hd) as Hsum1.
  pose proof (total_nonneg _ Hm) as Hsum2.
  rewrite total_app in Hmax.
  destruct (ConsumedTime_add_all db durations st t Ht Hpos Hd ltac:(lia))
    as (st1 & Hadd1 & Ht1).
  destruct (ConsumedTime_add_all db more st1 _ Ht1 ltac:(lia) Hm ltac:(lia))
    as (st2 & Hadd2 & Ht2).
  destruct (ConsumedTime_reset db st2 _ Ht2) as (st3 & Hreset & Ht3).
  exists st1, st2, st3, (t + total durations), (t + total durations + total more).
  repeat split; trivial; lia.
Qed.

Lemma ConsumedTime_monotone_witness :
  exists (st1 st2 st3 : Store) (t1 t2 : Z),
    add_all 0%nat [5; 0] example_store = Some st1
    /\ ConsumedTime 0%nat st1 = Some t1
    /\ add_all 0%nat [7] st1 = Some st2
    /\ ConsumedTime 0%nat st2 = Some t2
    /\ t1 = 5
    /\ t2 = t1 + 7
    /\ 0 <= t1 <= t2
    /\ (0 < t1 -> t2 <> 0)
    /\ ResetConsumedTime 0%nat st2 = Some st3
    /\ ConsumedTime 0%nat st3 = Some 0.
Proof.
  apply (ConsumedTime_monotone 0%nat example_store 0 [5; 0] [7]).
  - reflexivity.
  - lia.
  - repeat constructor; lia.
  - unfold max_int64; cbn; lia.
Defined.

(** ** [RawSQL.Do] *)

Section DoFacts.

Variables (world target structMappingDetails pointer row : Type).

Local Abbreviation description := (RawSQL.recordDescription target structMappingDetails).
Local Abbreviation getter := (RawSQL.pointersGetter world target pointer).

Variable buildRecordDescription : target -> description + error.
Variable GetPointersForColumns :
  structMappingDetails -> target -> list string -> world
  -> list pointer * option error.
Variable doSelectOrWithReturning :
  loc -> string -> list value -> description -> getter
  -> world -> world * (Z * option error).

(** The elements of the collection behind a target. *)
Variable collection : world -> target -> list row.

(** What section 4.2 of the specification says of the functions that
    are not in [raw_sql.go]: the description is that of the target, and
    the pipeline appends one element to the collection for every row it
    counts. *)
Hypothesis described :
  forall rec info,
    buildRecordDescription rec = inl info -> RawSQL.record _ _ info = rec.
Hypothesis appended :
  forall db sqlText arguments info (g : getter) w w' rowsCount,
    doSelectOrWithReturning db sqlText arguments info g w
    = (w', (rowsCount, None)) ->
    RawSQL.isSlice _ _ info = true ->
    exists new,
      collection w' (RawSQL.record _ _ info)
      = collection w (RawSQL.record _ _ info) ++ new
      /\ Z.of_nat (List.length new) = rowsCount.

Local Abbreviation Do :=
  (RawSQL.Do world target structMappingDetails pointer
     buildRecordDescription GetPointersForColumns doSelectOrWithReturning).

(** C7, amended.  The query ran without error and returned no row.
    For a target that is not a slice, [Do] returns [sql.ErrNoRows].  For
    a slice, [Do] returns nil and the collection is what it was before
    the call, rows being appended to what the caller passed: it is empty
    if the caller passed an empty one, and keeps its elements
    otherwise. *)
Theorem Do_no_rows (raw : RawSQL.RawSQL) (rec : target) (w w' : world)
    (info : description) :
  buildRecordDescription rec = inl info ->
  doSelectOrWithReturning
    (RawSQL.db raw) (RawSQL.sql raw) (RawSQL.arguments raw) info
    (fun rec columns =>
       GetPointersForColumns (RawSQL.structMapping _ _ info) rec columns)
    w
  = (w', (0, None)) ->
  (RawSQL.isSlice _ _ info = false -> Do raw rec w = (w', Some ErrNoRows))
  /\ (RawSQL.isSlice _ _ info = true ->
      Do raw rec w = (w', None)
      /\ collection w' rec = collection w rec
      /\ (collection w rec = [] -> collection w' rec = [])).
Proof.
  intros Hinfo Hrun.
  assert (Hdo : Do raw rec w
                = (w', if negb (RawSQL.isSlice _ _ info) then Some ErrNoRows
                       else None)).
  { unfold RawSQL.Do. rewrite Hinfo, Hrun. cbn [Z.eqb].
    rewrite andb_true_r. now destruct (negb (RawSQL.isSlice _ _ info)). }
  split; intros Hslice; rewrite Hdo, Hslice; cbn [negb].
  - reflexivity.
  - destruct (appended _ _ _ _ _ _ _ _ Hrun Hslice) as (new & Hnew & Hlen).
    rewrite (described _ _ Hinfo) in Hnew.
    destruct new as [|x new]; [|cbn [List.length] in Hlen; lia].
    rewrite List.app_nil_r in Hnew.
    repeat split; [exact Hnew|]. intros Hempty. now rewrite Hnew.
Qed.

End DoFacts.

(** C7, as the claim states it, fails for a slice that holds an element
    when it is passed: the query returns no row, [Do] returns nil, and
    the collection is not empty. *)
Lemma Do_no_rows_prefilled :
  snd (NoRows.doSelectOrWithReturning 0%nat "SELECT * FROM dummies WHERE id = ?"
         [VInt 0] (RawSQL.mkRecordDescription _ _ true true tt)
         (fun rec columns => NoRows.GetPointersForColumns tt rec columns)
         [[VInt 42]])
  = (0, None)
  /\ NoRows.Do
       (RawSQL.mkRawSQL 0%nat "SELECT * FROM dummies WHERE id = ?" [VInt 0])
       true [[VInt 42]]
     = ([[VInt 42]], None)
  /\ NoRows.collection [[VInt 42]] true = [[VInt 42]]
  /\ NoRows.collection [[VInt 42]] true <> [].
Proof.
  split; [reflexivity|]. split; [reflexivity|]. split; [reflexivity|].
  discriminate.
Qed.

Lemma Do_no_rows_witness :
  NoRows.Do (RawSQL.mkRawSQL 0%nat "SELECT * FROM dummies WHERE id = ?" [VInt 0])
            false []
  = ([], Some ErrNoRows)
  /\ NoRows.Do (RawSQL.mkRawSQL 0%nat "SELECT * FROM dummies WHERE id = ?" [VInt 0])
               true []
     = ([], None)
  /\ NoRows.collection [] true = [].
Proof.
  pose (raw := RawSQL.mkRawSQL 0%nat "SELECT * FROM dummies WHERE id = ?" [VInt 0]).
  assert (Hdescribed :
            forall rec info,
              NoRows.buildRecordDescription rec = inl info ->
              RawSQL.record _ _ info = rec).
  { intros rec info H. injection H as <-. reflexivity. }
  assert (Happended :
            forall db sqlText arguments info
                   (g : RawSQL.pointersGetter NoRows.world NoRows.target nat)
                   w w' rowsCount,
              NoRows.doSelectOrWithReturning db sqlText arguments info g w
              = (w', (rowsCount, None)) ->
              RawSQL.isSlice _ _ info = true ->
              exists new,
                NoRows.collection w' (RawSQL.record _ _ info)
                = NoRows.collection w (RawSQL.record _ _ info) ++ new
                /\ Z.of_nat (List.length new) = rowsCount).
  { intros db sqlText arguments info g w w' rowsCount H _.
    injection H as <- <-. exists []. split; [|reflexivity].
    unfold NoRows.collection. now rewrite List.app_nil_r. }
  destruct (Do_no_rows NoRows.world NoRows.target unit nat (list value)
              NoRows.buildRecordDescription NoRows.GetPointersForColumns
              NoRows.doSelectOrWithReturning NoRows.collection
              Hdescribed Happended raw false [] []
              (RawSQL.mkRecordDescription _ _ false false tt)
              eq_refl eq_refl) as [Hsingle _].
  destruct (Do_no_rows NoRows.world NoRows.target unit nat (list value)
              NoRows.buildRecordDescription NoRows.GetPointersForColumns
              NoRows.doSelectOrWithReturning NoRows.collection
              Hdescribed Happended raw true [] []
              (RawSQL.mkRecordDescription _ _ true true tt)
              eq_refl eq_refl) as [_ Hslice].
  destruct (Hslice eq_refl) as (Hnil & _ & Hempty).
  split; [exact (Hsingle eq_refl)|].
  split; [exact Hnil|]. exact (Hempty eq_refl).
Defined.

(** * Further properties *)

(** ** [Q]: totality, errors and alignment *)

Lemma Count_append (a b : string) :
  strings.Count (String.append a b) Placeholder
  = strings.Count a Placeholder + strings.Count b Placeholder.
Proof.
  induction a as [|ch a IH]; [now rewrite append_empty_l|].
  rewrite append_cons, !Count_cons, IH. lia.
Qed.

Lemma length_append (a b : string) :
  String.length (String.append a b) = (String.length a + String.length b)%nat.
Proof.
  induction a as [|ch a IH]; [reflexivity|].
  rewrite append_cons. cbn [String.length]. now rewrite IH.
Qed.

Lemma concat_cons2 (sep x y : string) (l : list string) :
  String.concat sep (x :: y :: l)
  = String.append x (String.append sep (String.concat sep (y :: l))).
Proof. reflexivity. Qed.

Lemma Count_repeat (n : nat) :
  strings.Count (String.concat "," (List.repeat Placeholder n)) Placeholder
  = Z.of_nat n.
Proof.
  destruct n as [|n]; [reflexivity|].
  induction n as [|n IH]; [reflexivity|].
  change (List.repeat Placeholder (S (S n)))
    with (Placeholder :: Placeholder :: List.repeat Placeholder n).
  rewrite concat_cons2, !Count_append.
  change (Placeholder :: List.repeat Placeholder n)
    with (List.repeat Placeholder (S n)).
  rewrite IH. change (strings.Count Placeholder Placeholder) with 1.
  change (strings.Count "," Placeholder) with 0. lia.
Qed.

Lemma Count_rewrite (s : string) :
  forall arguments : list value,
    strings.Count s Placeholder = Z.of_nat (List.length arguments) ->
    strings.Count (Spec.rewrite s arguments) Placeholder
    = Z.of_nat (List.length (Spec.flatten arguments)).
Proof.
  induction s as [|ch s IH]; intros arguments Hcount.
  - destruct arguments; [reflexivity | cbn in Hcount; lia].
  - rewrite Count_cons in Hcount. cbn [Spec.rewrite].
    destruct (Ascii.eqb ch "?") eqn:E.
    + destruct arguments as [|arg rest]; cbn [List.length] in Hcount.
      { pose proof (Count_nonneg s). lia. }
      rewrite Count_append. unfold Spec.arg_placeholders.
      rewrite Count_repeat, IH by lia.
      cbn [Spec.flatten flat_map]. rewrite List.length_app, arg_values_length.
      unfold Spec.flatten. lia.
    + rewrite Count_cons, E. apply IH. lia.
Qed.

Lemma accepted_or_rejected (arguments : list value) :
  Forall accepted arguments
  \/ In VNil arguments \/ In (VSlice []) arguments.
Proof.
  induction arguments as [|arg rest IH]; [left; constructor|].
  destruct (arg_cases arg) as [-> | [-> | Harg]].
  - right; left; now left.
  - right; right; now left.
  - destruct IH as [IH | [IH | IH]].
    + left. now constructor.
    + right; left; now right.
    + right; right; now right.
Qed.

(** A result of [Q] without error comes from a fragment with the right
    number of placeholders and from accepted arguments. *)
Lemma Q_ok_inversion (sqlText : string) (arguments : list value)
    (c : Condition) :
  Q sqlText arguments = Some c ->
  Err c = None ->
  strings.Count sqlText Placeholder = Z.of_nat (List.length arguments)
  /\ Forall accepted arguments.
Proof.
  intros HQ Herr.
  destruct (Z.eq_dec (strings.Count sqlText Placeholder)
                     (Z.of_nat (List.length arguments))) as [Hcount|Hcount].
  - split; [exact Hcount|].
    destruct (accepted_or_rejected arguments) as [Hok|Hbad]; [exact Hok|].
    rewrite (Q_counted _ _ Hcount) in HQ.
    destruct (Q_loop_rejected sqlText arguments [] EmptyString sqlText
                Hcount Hbad) as (c' & Hc' & Herr').
    congruence.
  - unfold Q in HQ. apply Z.eqb_neq in Hcount. rewrite Hcount in HQ.
    cbn [negb] in HQ. injection HQ as <-. discriminate.
Qed.

(** X1. [Q] returns a condition for every fragment and every list of
    arguments: no input makes it panic. *)
Theorem Q_total (sqlText : string) (arguments : list value) :
  exists c, Q sqlText arguments = Some c.
Proof.
  destruct (Z.eq_dec (strings.Count sqlText Placeholder)
                     (Z.of_nat (List.length arguments))) as [Hcount|Hcount].
  - rewrite (Q_counted _ _ Hcount).
    now apply Q_loop_in_bounds.
  - unfold Q. apply Z.eqb_neq in Hcount. rewrite Hcount.
    eexists; reflexivity.
Qed.

(** X2. In a condition that [Q] returns without error, the fragment has
    exactly one placeholder for each argument of the condition. *)
Theorem Q_aligned (sqlText : string) (arguments : list value) (c : Condition) :
  Q sqlText arguments = Some c ->
  Err c = None ->
  aligned c.
Proof.
  intros HQ Herr.
  destruct (Q_ok_inversion _ _ _ HQ Herr) as [Hcount Hok].
  rewrite (Q_counted _ _ Hcount),
          (Q_loop_accepted _ _ _ _ _ Hcount Hok) in HQ.
  injection HQ as <-. unfold aligned. cbn [sql args List.app].
  rewrite append_empty_l. now apply Count_rewrite.
Qed.

Lemma Q_aligned_witness :
  aligned (mkCondition None "x = ? AND y IN (?,?,?)"
             [VInt 5; VInt 1; VInt 2; VInt 3]).
Proof.
  apply (Q_aligned "x = ? AND y IN (?)"
           [VInt 5; VSlice [VInt 1; VInt 2; VInt 3]]); reflexivity.
Defined.

Lemma Q_loop_first_rejected (sqlText : string) (before : list value) :
  forall (bad : value) (after c_args : list value) (buffer remainingSQL : string),
    strings.Count remainingSQL Placeholder
    = Z.of_nat (List.length (before ++ bad :: after)) ->
    Forall accepted before ->
    bad = VNil \/ bad = VSlice [] ->
    Q_loop sqlText (before ++ bad :: after) c_args buffer remainingSQL
    = Some (mkCondition
              (Some (if is_nil bad then nil_argument_error sqlText
                     else empty_slice_error sqlText))
              EmptyString (c_args ++ Spec.flatten before)).
Proof.
  induction before as [|arg rest IH];
    intros bad after c_args buffer remainingSQL Hcount Hok Hbad.
  - cbn [List.app Spec.flatten flat_map]. rewrite List.app_nil_r.
    cbn [List.app List.length] in Hcount.
    destruct Hbad as [-> | ->]; [reflexivity|].
    destruct (first_placeholder remainingSQL ltac:(lia))
      as (pre & post & Hi & _ & Hto & Hfrom & _).
    cbn [Q_loop is_nil]. cbv zeta. now rewrite Hi, Hto, Hfrom.
  - inversion Hok as [|? ? Harg Hrest]; subst.
    cbn [List.app List.length] in Hcount.
    destruct (first_placeholder remainingSQL ltac:(lia))
      as (pre & post & Hi & _ & Hto & Hfrom & Hpost & _).
    cbn [List.app].
    rewrite (Q_loop_step sqlText remainingSQL pre post Hi Hto Hfrom) by exact Harg.
    rewrite IH by (trivial; lia).
    cbn [Spec.flatten flat_map]. now rewrite List.app_assoc.
Qed.

(** X3. Which error [Q] stores.  A wrong number of placeholders comes
    first, whatever the arguments.  Otherwise the first argument that is
    nil or an empty slice decides: the error says which of the two it
    is, the fragment is empty, and the arguments are those gathered from
    the arguments before it. *)
Theorem Q_error (sqlText : string) :
  (forall arguments,
      strings.Count sqlText Placeholder <> Z.of_nat (List.length arguments) ->
      Q sqlText arguments
      = Some (mkCondition (Some (wrong_number_error sqlText)) EmptyString []))
  /\ (forall before bad after,
         strings.Count sqlText Placeholder
         = Z.of_nat (List.length (before ++ bad :: after)) ->
         Forall accepted before ->
         bad = VNil \/ bad = VSlice [] ->
         Q sqlText (before ++ bad :: after)
         = Some (mkCondition
                   (Some (if is_nil bad then nil_argument_error sqlText
                          else empty_slice_error sqlText))
                   EmptyString (Spec.flatten before))).
Proof.
  split.
  - intros arguments Hcount. unfold Q.
    apply Z.eqb_neq in Hcount. now rewrite Hcount.
  - intros before bad after Hcount Hok Hbad.
    rewrite (Q_counted _ _ Hcount).
    now rewrite (Q_loop_first_rejected sqlText before bad after []
                   EmptyString sqlText Hcount Hok Hbad).
Qed.

Lemma Q_error_witness :
  Q "a = ?" [VNil; VInt 1]
  = Some (mkCondition (Some (wrong_number_error "a = ?")) EmptyString [])
  /\ Q "a IN (?) AND b = ? AND c = ?" [VSlice [VInt 1; VInt 2]; VSlice []; VNil]
     = Some (mkCondition
               (Some (empty_slice_error "a IN (?) AND b = ? AND c = ?"))
               EmptyString [VInt 1; VInt 2]).
Proof.
  destruct (Q_error "a = ?") as [Hwrong _].
  destruct (Q_error "a IN (?) AND b = ? AND c = ?") as [_ Hfirst].
  split.
  - apply Hwrong. cbn. lia.
  - apply (Hfirst [VSlice [VInt 1; VInt 2]] (VSlice []) [VNil]).
    + reflexivity.
    + repeat constructor; discriminate.
    + now right.
Defined.

(** ** [Q] without slices *)

Lemma scalar_accepted (arg : value) : scalar arg -> accepted arg.
Proof.
  intros [Hnil Hslice]. split; intros ->; discriminate.
Qed.

Lemma scalars_accepted (arguments : list value) :
  Forall scalar arguments -> Forall accepted arguments.
Proof.
  induction 1 as [|arg rest Harg _ IH]; constructor;
    [now apply scalar_accepted | exact IH].
Qed.

Lemma scalar_values (arg : value) :
  scalar arg -> Spec.arg_values arg = [arg] /\ Spec.arg_placeholders arg = Placeholder.
Proof.
  intros [Hnil Hslice]. destruct arg; try discriminate; split; reflexivity.
Qed.

Lemma flatten_scalars (arguments : list value) :
  Forall scalar arguments -> Spec.flatten arguments = arguments.
Proof.
  induction 1 as [|arg rest Harg _ IH]; [reflexivity|].
  cbn [Spec.flatten flat_map]. fold (Spec.flatten rest).
  destruct (scalar_values arg Harg) as [-> _]. now rewrite IH.
Qed.

Lemma rewrite_scalars (s : string) :
  forall arguments : list value,
    Forall scalar arguments -> Spec.rewrite s arguments = s.
Proof.
  induction s as [|ch s IH]; intros arguments Hall; [reflexivity|].
  cbn [Spec.rewrite]. destruct (Ascii.eqb ch "?") eqn:E.
  - apply Ascii.eqb_eq in E. subst ch.
    destruct Hall as [|arg rest Harg Hrest].
    + now rewrite IH by constructor.
    + destruct (scalar_values arg Harg) as [_ ->].
      now rewrite IH by exact Hrest.
  - now rewrite IH.
Qed.

(** X4. When no argument is nil or a slice and the fragment has one
    placeholder for each argument, [Q] returns the fragment and the
    arguments as they are. *)
Theorem Q_scalars (sqlText : string) (arguments : list value) :
  strings.Count sqlText Placeholder = Z.of_nat (List.length arguments) ->
  Forall scalar arguments ->
  Q sqlText arguments = Some (mkCondition None sqlText arguments).
Proof.
  intros Hcount Hall.
  pose proof (scalars_accepted _ Hall) as Hok.
  rewrite (Q_counted _ _ Hcount), (Q_loop_accepted _ _ _ _ _ Hcount Hok).
  rewrite append_empty_l, rewrite_scalars, flatten_scalars by exact Hall.
  reflexivity.
Qed.

Lemma Q_scalars_witness :
  Q "a = ? AND b = ?" [VInt 1; VString "x"]
  = Some (mkCondition None "a = ? AND b = ?" [VInt 1; VString "x"]).
Proof.
  apply (Q_scalars "a = ? AND b = ?" [VInt 1; VString "x"]).
  - reflexivity.
  - repeat constructor.
Defined.

(** X5. [Q] applied to the fragment and the arguments of a condition it
    returned without error returns that condition again, provided the
    elements of the slices it expanded are neither nil nor slices. *)
Theorem Q_again (sqlText : string) (arguments : list value) (c : Condition) :
  Q sqlText arguments = Some c ->
  Err c = None ->
  Forall scalar (args c) ->
  Q (sql c) (args c) = Some c.
Proof.
  intros HQ Herr Hall.
  pose proof (Q_ok_inversion _ _ _ HQ Herr) as [Hcount Hok].
  assert (Hal : aligned c).
  { rewrite (Q_counted _ _ Hcount),
            (Q_loop_accepted _ _ _ _ _ Hcount Hok) in HQ.
    injection HQ as <-. unfold aligned. cbn [sql args List.app].
    rewrite append_empty_l. now apply Count_rewrite. }
  rewrite (Q_scalars (sql c) (args c) Hal Hall).
  destruct c as [e s a]. unfold Err in Herr. cbn in Herr. now subst e.
Qed.

Lemma Q_again_witness :
  Q "x = ? AND y IN (?,?,?)" [VInt 5; VInt 1; VInt 2; VInt 3]
  = Some (mkCondition None "x = ? AND y IN (?,?,?)"
            [VInt 5; VInt 1; VInt 2; VInt 3]).
Proof.
  apply (Q_again "x = ? AND y IN (?)"
           [VInt 5; VSlice [VInt 1; VInt 2; VInt 3]]
           (mkCondition None "x = ? AND y IN (?,?,?)"
              [VInt 5; VInt 1; VInt 2; VInt 3])).
  - reflexivity.
  - reflexivity.
  - repeat constructor.
Defined.

(** ** [And], [Or], [Not]: composition *)

Lemma And_ok (conditions : list Condition) :
  (2 <= List.length conditions)%nat ->
  Forall (fun c => Err c = None) conditions ->
  And conditions
  = mkCondition None (Spec.joined " AND " conditions) (Spec.all_args conditions).
Proof.
  intros Hlen Hall.
  destruct (several _ Hlen) as (a & b & rest & Heq).
  destruct (sumOfConditionsLengths_none conditions 0 0 Hall) as (n & m & Hsum).
  rewrite Heq, And_several, <- Heq.
  unfold sumOfConditionsLengths. rewrite Hsum.
  now rewrite joinSQL_joined, joinArgs_concat.
Qed.

Lemma Or_ok (conditions : list Condition) :
  (2 <= List.length conditions)%nat ->
  Forall (fun c => Err c = None) conditions ->
  Or conditions
  = mkCondition None
      (String.append "(" (String.append (Spec.joined " OR " conditions) ")"))
      (Spec.all_args conditions).
Proof.
  intros Hlen Hall.
  destruct (several _ Hlen) as (a & b & rest & Heq).
  destruct (sumOfConditionsLengths_none conditions 0 0 Hall) as (n & m & Hsum).
  rewrite Heq, Or_several, <- Heq.
  unfold sumOfConditionsLengths. rewrite Hsum.
  now rewrite joinSQL_joined, joinArgs_concat, append_assoc.
Qed.

Lemma joined_cons (conjunction : string) (c : Condition)
    (rest : list Condition) :
  rest <> [] ->
  Spec.joined conjunction (c :: rest)
  = String.append (sql c)
      (String.append conjunction (Spec.joined conjunction rest)).
Proof.
  destruct rest as [|c' rest]; [congruence|]. reflexivity.
Qed.

Lemma all_args_cons (c : Condition) (rest : list Condition) :
  Spec.all_args (c :: rest) = args c ++ Spec.all_args rest.
Proof. reflexivity. Qed.

(** The placeholders and the arguments of joined conditions add up. *)
Lemma joined_aligned (conjunction : string) (conditions : list Condition) :
  strings.Count conjunction Placeholder = 0 ->
  Forall aligned conditions ->
  strings.Count (Spec.joined conjunction conditions) Placeholder
  = Z.of_nat (List.length (Spec.all_args conditions)).
Proof.
  intros Hconj Hall.
  induction Hall as [|c rest Hc Hrest IH]; [reflexivity|].
  rewrite all_args_cons, List.length_app, Nat2Z.inj_add, <- IH.
  destruct rest as [|c' rest].
  - unfold Spec.joined. cbn [List.map String.concat].
    change (strings.Count EmptyString Placeholder) with 0.
    unfold aligned in Hc. lia.
  - rewrite joined_cons by discriminate.
    rewrite !Count_append, Hconj. unfold aligned in Hc. lia.
Qed.

(** X6. Alignment is kept by the combinators: [And] and [Or] of one or
    more conditions without error, each with one placeholder for each of
    its arguments, and [Not] of such a condition, again have no error and
    one placeholder for each argument. *)
Theorem combinators_aligned (conditions : list Condition) (c : Condition) :
  conditions <> [] ->
  Forall (fun x => Err x = None) conditions ->
  Forall aligned conditions ->
  Err c = None ->
  aligned c ->
  (Err (And conditions) = None /\ aligned (And conditions))
  /\ (Err (Or conditions) = None /\ aligned (Or conditions))
  /\ (Err (Not c) = None /\ aligned (Not c)).
Proof.
  intros Hne Hok Hal Hc Hcal.
  assert (Hnot : Err (Not c) = None /\ aligned (Not c)).
  { unfold Not. unfold Err in Hc. rewrite Hc. split; [reflexivity|].
    unfold aligned in *. cbn [sql args].
    rewrite !Count_append, Hcal.
    change (strings.Count EmptyString Placeholder) with 0.
    change (strings.Count "NOT (" Placeholder) with 0.
    change (strings.Count ")" Placeholder) with 0. lia. }
  destruct conditions as [|a [|b rest]]; [congruence| |].
  - cbn [And Or]. inversion Hok; inversion Hal; subst. auto.
  - rewrite And_ok, Or_ok by (trivial; cbn [List.length]; lia).
    split; [|split; [|exact Hnot]]; (split; [reflexivity|]);
      unfold aligned; cbn [sql args].
    + now apply joined_aligned.
    + rewrite !Count_append, (joined_aligned " OR ") by trivial.
      change (strings.Count "(" Placeholder) with 0.
      change (strings.Count ")" Placeholder) with 0. lia.
Qed.

Lemma combinators_aligned_witness :
  aligned (And [mkCondition None "a=?" [VInt 1];
                mkCondition None "b IN (?,?)" [VInt 2; VInt 3]])
  /\ aligned (Or [mkCondition None "a=?" [VInt 1];
                  mkCondition None "b IN (?,?)" [VInt 2; VInt 3]])
  /\ aligned (Not (mkCondition None "a=?" [VInt 1])).
Proof.
  destruct (combinators_aligned
              [mkCondition None "a=?" [VInt 1];
               mkCondition None "b IN (?,?)" [VInt 2; VInt 3]]
              (mkCondition None "a=?" [VInt 1]))
    as ((_ & Hand) & (_ & Hor) & (_ & Hnot)).
  - discriminate.
  - repeat constructor.
  - repeat constructor.
  - reflexivity.
  - reflexivity.
  - repeat split; assumption.
Defined.








(** ** The buffers of [And], [Or] and [Not] *)

Lemma sumOfConditionsLengths_sums (conditions : list Condition) :
  forall n m : Z,
    Forall (fun c => Err c = None) conditions ->
    sumOfConditionsLengths_loop n m conditions
    = (n + fragment_lengths conditions, m + argument_counts conditions, None).
Proof.
  unfold fragment_lengths, argument_counts.
  induction conditions as [|c rest IH]; intros n m Hall.
  - cbn [sumOfConditionsLengths_loop List.map total fold_right].
    now rewrite !Z.add_0_r.
  - inversion Hall as [|? ? Hc Hrest]; subst.
    cbn [sumOfConditionsLengths_loop]. unfold Err in Hc. rewrite Hc.
    rewrite IH by exact Hrest.
    cbn [List.map total fold_right].
    do 2 f_equal; unfold total; lia.
Qed.









Lemma length_joined (conjunction : string) (conditions : list Condition) :
  conditions <> [] ->
  Z.of_nat (String.length (Spec.joined conjunction conditions))
  = fragment_lengths conditions
    + Z.of_nat (String.length conjunction)
      * (Z.of_nat (List.length conditions) - 1).
Proof.
  unfold fragment_lengths.
  induction conditions as [|c rest IH]; [congruence|]. intros _.
  destruct rest as [|c' rest].
  - unfold Spec.joined. cbn [List.map String.concat total fold_right List.length].
    lia.
  - rewrite joined_cons by discriminate.
    rewrite !length_append, !Nat2Z.inj_add, IH by discriminate.
    cbn [List.map total fold_right List.length]. unfold total. lia.
Qed.

Lemma length_all_args (conditions : list Condition) :
  Z.of_nat (List.length (Spec.all_args conditions)) = argument_counts conditions.
Proof.
  unfold argument_counts.
  induction conditions as [|c rest IH]; [reflexivity|].
  rewrite all_args_cons, List.length_app, Nat2Z.inj_add, IH.
  reflexivity.
Qed.

(** X9. The capacities are exact.  For two or more conditions without
    error, the fragment [And] builds is as long as the capacity it gave
    its buffer, and so is the fragment of [Or]; the fragment of [Not] of
    a condition without error is as long as its capacity. *)
Theorem capacities_exact (conditions : list Condition) (c : Condition) :
  (2 <= List.length conditions)%nat ->
  Forall (fun x => Err x = None) conditions ->
  Err c = None ->
  Z.of_nat (String.length (sql (And conditions))) = And_capacity conditions
  /\ Z.of_nat (String.length (sql (Or conditions))) = Or_capacity conditions
  /\ Z.of_nat (String.length (sql (Not c))) = Not_capacity c.
Proof.
  intros Hlen Hall Hc.
  assert (Hne : conditions <> []) by (intros ->; cbn in Hlen; lia).
  rewrite And_ok, Or_ok by trivial. cbn [sql].
  unfold And_capacity, Or_capacity, Not_capacity, sumOfConditionsLengths.
  rewrite (sumOfConditionsLengths_sums _ 0 0 Hall).
  rewrite !length_append, !Nat2Z.inj_add, !length_joined by exact Hne.
  unfold Not. unfold Err in Hc. rewrite Hc. cbn [sql].
  rewrite !length_append, !Nat2Z.inj_add.
  cbn [String.length]. repeat split; lia.
Qed.

Lemma capacities_exact_witness :
  Z.of_nat (String.length "a=? AND b=?") = 11
  /\ Z.of_nat (String.length "(a=? OR b=?)") = 12
  /\ Z.of_nat (String.length "NOT (a=?)") = 9.
Proof.
  apply (capacities_exact
           [mkCondition None "a=?" [VInt 1]; mkCondition None "b=?" [VInt 2]]
           (mkCondition None "a=?" [VInt 1])).
  - cbn; lia.
  - repeat constructor.
  - reflexivity.
Defined.

(** ** The store: [initialize], [Clone] and the setters *)

Section StoreFacts.

Variable defaultSize : Z.

(** What [Clone] returns, in closed form. *)
Lemma Clone_result (st : Store) (db : loc) (d : DB) (cDB cTx : StmtCache) :
  dbs st !! db = Some d ->
  stmtCaches st !! stmtCacheDB d = Some cDB ->
  stmtCaches st !! stmtCacheTx d = Some cTx ->
  exists clone p1 p2 : loc,
    dbs st !! clone = None
    /\ stmtCaches st !! p1 = None
    /\ stmtCaches st !! p2 = None
    /\ p1 <> p2
    /\ Clone defaultSize db st
       = Some (clone,
               mkStore
                 (<[clone := mkDB (adapter d) (sqlDB d) None (logger d) 0
                               (defaultTableNamer d) p1 p2 (useErrorParser d)]>
                    (dbs st))
                 (<[p2 := mkStmtCache (isEnabled cTx) (maxSize cTx) []]>
                    (<[p1 := mkStmtCache (isEnabled cDB) (maxSize cDB) []]>
                       (stmtCaches st)))).
Proof.
  intros Hdb HcDB HcTx.
  unfold Clone. rewrite Hdb. cbn [mbind option_bind].
  unfold newStmtCache, new_DB, set_stmtCaches, set_dbs. cbn [dbs stmtCaches].
  set (q := fresh (dom (dbs st))).
  set (p1 := fresh (dom (stmtCaches st))).
  set (c1 := <[p1 := mkStmtCache true defaultSize []]> (stmtCaches st)).
  set (p2 := fresh (dom c1)).
  assert (Hq : dbs st !! q = None) by apply fresh_unused.
  assert (H1 : stmtCaches st !! p1 = None) by apply fresh_unused.
  assert (H2 : c1 !! p2 = None) by apply fresh_unused.
  assert (H12 : p1 <> p2).
  { intros E. rewrite <- E in H2. unfold c1 in H2.
    now rewrite lookup_insert_eq in H2. }
  assert (H2' : stmtCaches st !! p2 = None).
  { unfold c1 in H2. now rewrite lookup_insert_ne in H2. }
  assert (HD1 : p1 <> stmtCacheDB d) by congruence.
  assert (HD2 : p2 <> stmtCacheDB d) by congruence.
  assert (HT1 : p1 <> stmtCacheTx d) by congruence.
  assert (HT2 : p2 <> stmtCacheTx d) by congruence.
  exists q, p1, p2. repeat (split; [assumption|]).
  unfold GetSize, SetSize, IsEnabled, Disable, set_stmtCaches, c1.
  cbn [dbs stmtCaches].
  simplify_map_eq.
  destruct (isEnabled cDB) eqn:EDB; simplify_map_eq;
    destruct (isEnabled cTx) eqn:ETx; simplify_map_eq;
    do 2 f_equal; apply (f_equal (mkStore _));
    apply map_eq; intros i;
    destruct (decide (i = p1)) as [Hi1|Hi1];
    destruct (decide (i = p2)) as [Hi2|Hi2];
    try congruence; now simplify_map_eq.
Qed.

Variable tablenamer_Same : option nat.

(** What [initialize] returns, in closed form. *)
Lemma initialize_result (adapterInst dbInst : option nat) (st : Store) :
  exists db p1 p2 : loc,
    dbs st !! db = None
    /\ stmtCaches st !! p1 = None
    /\ stmtCaches st !! p2 = None
    /\ p1 <> p2
    /\ initialize defaultSize tablenamer_Same adapterInst dbInst st
       = Some (db,
               mkStore
                 (<[db := mkDB adapterInst dbInst None None 0 tablenamer_Same
                            p1 p2 false]> (dbs st))
                 (<[p2 := mkStmtCache true defaultSize []]>
                    (<[p1 := mkStmtCache false defaultSize []]>
                       (stmtCaches st)))).
Proof.
  unfold initialize, newStmtCache, new_DB, Disable, set_stmtCaches, set_dbs.
  cbn [dbs stmtCaches stmtCacheDB].
  set (q := fresh (dom (dbs st))).
  set (p1 := fresh (dom (stmtCaches st))).
  set (c1 := <[p1 := mkStmtCache true defaultSize []]> (stmtCaches st)).
  set (p2 := fresh (dom c1)).
  assert (Hq : dbs st !! q = None) by apply fresh_unused.
  assert (H1 : stmtCaches st !! p1 = None) by apply fresh_unused.
  assert (H2 : c1 !! p2 = None) by apply fresh_unused.
  assert (H12 : p1 <> p2).
  { intros E. rewrite <- E in H2. unfold c1 in H2.
    now rewrite lookup_insert_eq in H2. }
  assert (H2' : stmtCaches st !! p2 = None).
  { unfold c1 in H2. now rewrite lookup_insert_ne in H2. }
  exists q, p1, p2. repeat (split; [assumption|]).
  unfold c1. simplify_map_eq.
  do 2 f_equal. apply (f_equal (mkStore _)).
  apply map_eq; intros i.
  destruct (decide (i = p1)) as [Hi1|Hi1];
    destruct (decide (i = p2)) as [Hi2|Hi2];
    try congruence; now simplify_map_eq.
Qed.

(** X10. [initialize] (and so [Wrap]) never panics.  It allocates a DB
    with the adapter and the connection given, no transaction, no
    consumed time and the error parser off, and two statement caches of
    its own: the one for the connection disabled, the one for
    transactions enabled.  It changes nothing that was in the store. *)
Theorem initialize_defaults (adapterInst dbInst : option nat) (st : Store) :
  exists (db : loc) (st' : Store) (d : DB),
    Wrap defaultSize tablenamer_Same adapterInst dbInst st = Some (db, st')
    /\ dbs st !! db = None
    /\ dbs st' !! db = Some d
    /\ d = mkDB adapterInst dbInst None None 0 tablenamer_Same
               (stmtCacheDB d) (stmtCacheTx d) false
    /\ stmtCacheDB d <> stmtCacheTx d
    /\ stmtCaches st !! stmtCacheDB d = None
    /\ stmtCaches st !! stmtCacheTx d = None
    /\ stmtCaches st' !! stmtCacheDB d = Some (mkStmtCache false defaultSize [])
    /\ stmtCaches st' !! stmtCacheTx d = Some (mkStmtCache true defaultSize [])
    /\ (forall p x, dbs st !! p = Some x -> dbs st' !! p = Some x)
    /\ (forall p x, stmtCaches st !! p = Some x -> stmtCaches st' !! p = Some x).
Proof.
  destruct (initialize_result adapterInst dbInst st)
    as (db & p1 & p2 & Hdb & H1 & H2 & H12 & Hinit).
  unfold Wrap. rewrite Hinit.
  exists db. eexists.
  exists (mkDB adapterInst dbInst None None 0 tablenamer_Same p1 p2 false).
  cbn [dbs stmtCaches stmtCacheDB stmtCacheTx].
  split; [reflexivity|]. split; [exact Hdb|].
  split; [now simplify_map_eq|]. split; [reflexivity|].
  split; [exact H12|]. split; [exact H1|]. split; [exact H2|].
  split; [now simplify_map_eq|]. split; [now simplify_map_eq|].
  split; intros p x Hp.
  - assert (p <> db) by congruence. now simplify_map_eq.
  - assert (p <> p1) by congruence. assert (p <> p2) by congruence.
    now simplify_map_eq.
Qed.

(** X11. [Clone] does not panic on a DB made by [initialize] (or
    [Wrap]): the clone is a different DB on the same connection and with
    the same adapter, and its caches are set like those of a new DB, the
    one for the connection disabled and the one for transactions
    enabled. *)
Theorem Clone_after_initialize (adapterInst dbInst : option nat)
    (st st1 : Store) (db : loc) :
  initialize defaultSize tablenamer_Same adapterInst dbInst st = Some (db, st1) ->
  exists (clone : loc) (st2 : Store) (d' : DB),
    Clone defaultSize db st1 = Some (clone, st2)
    /\ clone <> db
    /\ dbs st2 !! clone = Some d'
    /\ adapter d' = adapterInst
    /\ sqlDB d' = dbInst
    /\ stmtCaches st2 !! stmtCacheDB d' = Some (mkStmtCache false defaultSize [])
    /\ stmtCaches st2 !! stmtCacheTx d' = Some (mkStmtCache true defaultSize []).
Proof.
  intros Hinit.
  destruct (initialize_result adapterInst dbInst st)
    as (db0 & p1 & p2 & Hdb & H1 & H2 & H12 & Hinit').
  rewrite Hinit in Hinit'. injection Hinit' as -> ->.
  set (d := mkDB adapterInst dbInst None None 0 tablenamer_Same p1 p2 false).
  destruct (Clone_result
              (mkStore (<[db0 := d]> (dbs st))
                 (<[p2 := mkStmtCache true defaultSize []]>
                    (<[p1 := mkStmtCache false defaultSize []]> (stmtCaches st))))
              db0 d (mkStmtCache false defaultSize [])
              (mkStmtCache true defaultSize []))
    as (clone & q1 & q2 & Hclone & Hq1 & Hq2 & Hq12 & HClone).
  - cbn [dbs]. now simplify_map_eq.
  - cbn [stmtCaches stmtCacheDB d]. now simplify_map_eq.
  - cbn [stmtCaches stmtCacheTx d]. now simplify_map_eq.
  - rewrite HClone. cbn [dbs stmtCaches] in *.
    exists clone. eexists.
    exists (mkDB adapterInst dbInst None None 0 tablenamer_Same q1 q2 false).
    cbn [adapter sqlDB stmtCacheDB stmtCacheTx isEnabled maxSize dbs stmtCaches].
    split; [reflexivity|].
    split; [intros ->; now simplify_map_eq|].
    split; [now simplify_map_eq|].
    split; [reflexivity|]. split; [reflexivity|].
    split; now simplify_map_eq.
Qed.

End StoreFacts.

Lemma Clone_after_initialize_witness :
  exists (clone : loc) (st2 : Store) (d' : DB),
    Clone 64 1%nat
      (mkStore
         (<[1%nat := mkDB (Some 1%nat) (Some 7%nat) None None 0 (Some 0%nat)
                        2%nat 3%nat false]> (dbs example_store))
         (<[3%nat := mkStmtCache true 64 []]>
            (<[2%nat := mkStmtCache false 64 []]> (stmtCaches example_store))))
    = Some (clone, st2)
    /\ clone <> 1%nat
    /\ dbs st2 !! clone = Some d'
    /\ adapter d' = Some 1%nat
    /\ sqlDB d' = Some 7%nat
    /\ stmtCaches st2 !! stmtCacheDB d' = Some (mkStmtCache false 64 [])
    /\ stmtCaches st2 !! stmtCacheTx d' = Some (mkStmtCache true 64 []).
Proof.
  apply (Clone_after_initialize 64 (Some 0%nat) (Some 1%nat) (Some 7%nat)
           example_store).
  vm_compute. reflexivity.
Defined.

(** ** Independence of a DB and its clone *)

Section Isolation.

Variable defaultSize : Z.

Lemma addConsumedTime_other (db other : loc) (duration : Z) (st st' : Store) :
  other <> db ->
  addConsumedTime db duration st = Some st' ->
  dbs st' !! other = dbs st !! other /\ stmtCaches st' = stmtCaches st.
Proof.
  unfold addConsumedTime. intros Hne Hadd.
  destruct (dbs st !! db) as [d|]; [|discriminate].
  cbn [mbind option_bind] in Hadd. injection Hadd as <-.
  unfold set_dbs. cbn [dbs stmtCaches]. now simplify_map_eq.
Qed.

Lemma add_all_other (db other : loc) (durations : list Z) :
  forall st st' : Store,
    other <> db ->
    add_all db durations st = Some st' ->
    dbs st' !! other = dbs st !! other /\ stmtCaches st' = stmtCaches st.
Proof.
  induction durations as [|duration rest IH]; intros st st' Hne Hall.
  - injection Hall as <-. now split.
  - cbn [add_all] in Hall.
    destruct (addConsumedTime db duration st) as [st1|] eqn:Hadd;
      [|discriminate].
    cbn [mbind option_bind] in Hall.
    destruct (addConsumedTime_other _ _ _ _ _ Hne Hadd) as [Hd Hc].
    destruct (IH _ _ Hne Hall) as [Hd' Hc'].
    split; congruence.
Qed.

(** X12. A DB and its clone keep separate accounts: whatever time is
    charged to the clone, the consumed time of the original stays what
    it was before the call to [Clone], and whatever is charged to the
    original, the clone still reads zero.  No statement cache is
    touched. *)
Theorem Clone_separate_accounts (st st1 st2 : Store) (db clone : loc)
    (d : DB) (cDB cTx : StmtCache) (durations : list Z) :
  dbs st !! db = Some d ->
  stmtCaches st !! stmtCacheDB d = Some cDB ->
  stmtCaches st !! stmtCacheTx d = Some cTx ->
  Clone defaultSize db st = Some (clone, st1) ->
  (add_all clone durations st1 = Some st2 ->
   ConsumedTime db st2 = ConsumedTime db st
   /\ stmtCaches st2 = stmtCaches st1)
  /\ (add_all db durations st1 = Some st2 ->
      ConsumedTime clone st2 = Some 0
      /\ stmtCaches st2 = stmtCaches st1).
Proof.
  intros Hdb HcDB HcTx HClone.
  destruct (Clone_result defaultSize st db d cDB cTx Hdb HcDB HcTx)
    as (q & p1 & p2 & Hq & H1 & H2 & H12 & HClone').
  rewrite HClone in HClone'. injection HClone' as -> ->.
  assert (Hne : db <> q) by congruence.
  split; intros Hall.
  - destruct (add_all_other q db durations _ _ Hne Hall) as [Hd Hc].
    split; [|exact Hc].
    unfold ConsumedTime. rewrite Hd. cbn [dbs]. now simplify_map_eq.
  - destruct (add_all_other db q durations _ _ (not_eq_sym Hne) Hall)
      as [Hd Hc].
    split; [|exact Hc].
    unfold ConsumedTime. rewrite Hd. cbn [dbs]. now simplify_map_eq.
Qed.

(** X13. Two clones of one DB are two DBs, and no statement cache is
    shared between them or with the original: the second call to
    [Clone] succeeds after the first, and the four caches of the two
    clones are four different caches, none of them a cache of the
    original. *)
Theorem Clone_twice (st st1 : Store) (db clone1 : loc) (d d1 : DB)
    (cDB cTx : StmtCache) :
  dbs st !! db = Some d ->
  stmtCaches st !! stmtCacheDB d = Some cDB ->
  stmtCaches st !! stmtCacheTx d = Some cTx ->
  Clone defaultSize db st = Some (clone1, st1) ->
  dbs st1 !! clone1 = Some d1 ->
  exists (clone2 : loc) (st2 : Store) (d2 : DB),
    Clone defaultSize db st1 = Some (clone2, st2)
    /\ dbs st2 !! clone2 = Some d2
    /\ dbs st2 !! clone1 = Some d1
    /\ dbs st2 !! db = Some d
    /\ clone1 <> clone2 /\ clone1 <> db /\ clone2 <> db
    /\ NoDup [stmtCacheDB d1; stmtCacheTx d1; stmtCacheDB d2; stmtCacheTx d2]
    /\ Forall (fun p => p <> stmtCacheDB d /\ p <> stmtCacheTx d)
         [stmtCacheDB d1; stmtCacheTx d1; stmtCacheDB d2; stmtCacheTx d2].
Proof.
  intros Hdb HcDB HcTx HClone Hd1.
  destruct (Clone_result defaultSize st db d cDB cTx Hdb HcDB HcTx)
    as (q & p1 & p2 & Hq & H1 & H2 & H12 & HClone').
  rewrite HClone in HClone'. injection HClone' as -> ->.
  assert (Hne : db <> q) by congruence.
  assert (HD1 : p1 <> stmtCacheDB d) by congruence.
  assert (HD2 : p2 <> stmtCacheDB d) by congruence.
  assert (HT1 : p1 <> stmtCacheTx d) by congruence.
  assert (HT2 : p2 <> stmtCacheTx d) by congruence.
  cbn [dbs] in Hd1. rewrite lookup_insert_eq in Hd1. injection Hd1 as <-.
  match goal with
  | |- context [Clone defaultSize db ?s] =>
      destruct (Clone_result defaultSize s db d cDB cTx)
        as (q' & p1' & p2' & Hq' & H1' & H2' & H12' & HClone2)
  end.
  { cbn [dbs]. now simplify_map_eq. }
  { cbn [stmtCaches]. now simplify_map_eq. }
  { cbn [stmtCaches]. now simplify_map_eq. }
  cbn [dbs stmtCaches] in Hq', H1', H2'.
  assert (Hqq : q <> q').
  { intros E. rewrite <- E in Hq'. now rewrite lookup_insert_eq in Hq'. }
  assert (Hp11 : p1 <> p1').
  { intros E. rewrite <- E in H1'. now simplify_map_eq. }
  assert (Hp12 : p1 <> p2').
  { intros E. rewrite <- E in H2'. now simplify_map_eq. }
  assert (Hp21 : p2 <> p1').
  { intros E. rewrite <- E in H1'. now simplify_map_eq. }
  assert (Hp22 : p2 <> p2').
  { intros E. rewrite <- E in H2'. now simplify_map_eq. }
  assert (HD1' : p1' <> stmtCacheDB d).
  { intros E. rewrite E in H1'. now simplify_map_eq. }
  assert (HD2' : p2' <> stmtCacheDB d).
  { intros E. rewrite E in H2'. now simplify_map_eq. }
  assert (HT1' : p1' <> stmtCacheTx d).
  { intros E. rewrite E in H1'. now simplify_map_eq. }
  assert (HT2' : p2' <> stmtCacheTx d).
  { intros E. rewrite E in H2'. now simplify_map_eq. }
  rewrite HClone2. exists q'. eexists.
  exists (mkDB (adapter d) (sqlDB d) None (logger d) 0
               (defaultTableNamer d) p1' p2' (useErrorParser d)).
  cbn [dbs stmtCacheDB stmtCacheTx].
  split; [reflexivity|].
  split; [now simplify_map_eq|].
  split; [now simplify_map_eq|].
  assert (Hne' : db <> q').
  { intros E. rewrite <- E in Hq'. now simplify_map_eq. }
  split; [now simplify_map_eq|].
  split; [exact Hqq|]. split; [congruence|]. split; [congruence|].
  split.
  - repeat constructor; cbn [In List.In]; rewrite ?list_elem_of_In;
      cbn [In]; intuition congruence.
  - repeat constructor; assumption.
Qed.

End Isolation.

Lemma Clone_separate_accounts_witness :
  exists (clone : loc) (st1 st2 : Store),
    Clone 64 0%nat example_store = Some (clone, st1)
    /\ add_all clone [5; 7] st1 = Some st2
    /\ ConsumedTime 0%nat st2 = ConsumedTime 0%nat example_store
    /\ stmtCaches st2 = stmtCaches st1.
Proof.
  eexists. eexists. eexists.
  split; [vm_compute; reflexivity|].
  split; [vm_compute; reflexivity|].
  eapply (proj1 (Clone_separate_accounts 64 example_store _ _ 0%nat _
                   example_DB (mkStmtCache false 64 []) (mkStmtCache true 64 [])
                   [5; 7] eq_refl eq_refl eq_refl eq_refl)).
  vm_compute. reflexivity.
Defined.

Lemma Clone_twice_witness :
  exists (clone1 clone2 : loc) (st1 st2 : Store) (d1 d2 : DB),
    Clone 64 0%nat example_store = Some (clone1, st1)
    /\ Clone 64 0%nat st1 = Some (clone2, st2)
    /\ dbs st2 !! clone1 = Some d1
    /\ dbs st2 !! clone2 = Some d2
    /\ clone1 <> clone2
    /\ NoDup [stmtCacheDB d1; stmtCacheTx d1; stmtCacheDB d2; stmtCacheTx d2].
Proof.
  destruct (Clone_twice 64 example_store
              (mkStore
                 (<[1%nat := mkDB (Some 1%nat) (Some 7%nat) None None 0
                                (Some 0%nat) 2%nat 3%nat false]>
                    (dbs example_store))
                 (<[3%nat := mkStmtCache true 64 []]>
                    (<[2%nat := mkStmtCache false 64 []]>
                       (stmtCaches example_store))))
              0%nat 1%nat example_DB
              (mkDB (Some 1%nat) (Some 7%nat) None None 0
                    (Some 0%nat) 2%nat 3%nat false)
              (mkStmtCache false 64 []) (mkStmtCache true 64 [])
              eq_refl eq_refl eq_refl)
    as (clone2 & st2 & d2 & HClone & Hd2 & Hd1 & _ & Hne & _ & _ & Hnodup & _).
  - vm_compute. reflexivity.
  - vm_compute. reflexivity.
  - eexists. exists clone2. eexists. exists st2. eexists. exists d2.
    split; [vm_compute; reflexivity|].
    split; [exact HClone|].
    split; [exact Hd1|]. split; [exact Hd2|].
    split; [exact Hne | exact Hnodup].
Defined.

(** ** Consumed time as a 64-bit counter *)

Lemma wrap_int64_range (z : Z) : in_int64 (wrap_int64 z).
Proof.
  unfold in_int64, min_int64, max_int64, wrap_int64.
  pose proof (Z.mod_pos_bound (z + 2 ^ 63) (2 ^ 64) ltac:(lia)). lia.
Qed.

Lemma wrap_int64_add (a b : Z) :
  wrap_int64 (wrap_int64 a + b) = wrap_int64 (a + b).
Proof.
  unfold wrap_int64.
  replace ((a + 2 ^ 63) mod 2 ^ 64 - 2 ^ 63 + b + 2 ^ 63)
    with ((a + 2 ^ 63) mod 2 ^ 64 + b) by lia.
  rewrite Zplus_mod_idemp_l. f_equal. f_equal. lia.
Qed.

(** X14. Whatever durations are added, negative ones and overflowing
    totals included, the consumed time is the exact total reduced to a
    signed 64-bit integer: adding never panics on an allocated DB, and
    the reading always lies between [-2^63] and [2^63 - 1]. *)
Theorem ConsumedTime_modular (db : loc) (durations : list Z) :
  forall (st : Store) (t : Z),
    ConsumedTime db st = Some t ->
    in_int64 t ->
    exists st',
      add_all db durations st = Some st'
      /\ ConsumedTime db st' = Some (wrap_int64 (t + total durations))
      /\ in_int64 (wrap_int64 (t + total durations)).
Proof.
  induction durations as [|duration rest IH]; intros st t Ht Hrange.
  - exists st. cbn [add_all total fold_right]. rewrite Z.add_0_r.
    rewrite (wrap_int64_small t Hrange).
    split; [reflexivity|]. split; assumption.
  - destruct (ConsumedTime_add db st t duration Ht) as (st1 & Hadd & Ht1).
    destruct (IH st1 _ Ht1 (wrap_int64_range _)) as (st' & Hall & Ht' & Hr).
    exists st'. cbn [add_all]. rewrite Hadd. cbn [mbind option_bind].
    rewrite wrap_int64_add in Ht', Hr.
    cbn [total fold_right]. fold (total rest).
    rewrite Z.add_assoc.
    split; [exact Hall|]. split; assumption.
Qed.

Lemma ConsumedTime_modular_witness :
  exists st',
    add_all 0%nat [max_int64; 1; -3] example_store = Some st'
    /\ ConsumedTime 0%nat st' = Some (wrap_int64 (0 + total [max_int64; 1; -3]))
    /\ in_int64 (wrap_int64 (0 + total [max_int64; 1; -3])).
Proof.
  apply (ConsumedTime_modular 0%nat [max_int64; 1; -3] example_store 0).
  - reflexivity.
  - unfold in_int64, min_int64, max_int64. lia.
Defined.

(** ** Settings and clones *)

(** X15. The settings of a DB at the time of the call go to its clone,
    and later changes do not: after [UseErrorParser] and
    [SetDefaultTableNamer] on a DB, its clone parses errors and has that
    table namer, with the adapter and the logger of the original; a
    table namer set on the original afterwards leaves the clone as it
    is. *)
Theorem Clone_settings (defaultSize : Z) (st : Store) (db : loc) (d : DB)
    (cDB cTx : StmtCache) (tnamer later : option nat) :
  dbs st !! db = Some d ->
  stmtCaches st !! stmtCacheDB d = Some cDB ->
  stmtCaches st !! stmtCacheTx d = Some cTx ->
  exists (st1 st2 st3 st4 : Store) (clone : loc) (d' : DB),
    UseErrorParser db st = Some st1
    /\ SetDefaultTableNamer db tnamer st1 = Some st2
    /\ Clone defaultSize db st2 = Some (clone, st3)
    /\ dbs st3 !! clone = Some d'
    /\ useErrorParser d' = true
    /\ defaultTableNamer d' = tnamer
    /\ adapter d' = adapter d
    /\ logger d' = logger d
    /\ SetDefaultTableNamer db later st3 = Some st4
    /\ dbs st4 !! clone = Some d'.
Proof.
  intros Hdb HcDB HcTx.
  set (d1 := with_useErrorParser true d).
  set (d2 := with_defaultTableNamer tnamer d1).
  set (st1 := mkStore (<[db := d1]> (dbs st)) (stmtCaches st)).
  set (st2 := mkStore (<[db := d2]> (dbs st1)) (stmtCaches st1)).
  destruct (Clone_result defaultSize st2 db d2 cDB cTx)
    as (q & p1 & p2 & Hq & H1 & H2 & H12 & HClone).
  { cbn [dbs st2]. now rewrite lookup_insert_eq. }
  { exact HcDB. }
  { exact HcTx. }
  assert (Hne : db <> q).
  { intros E. rewrite <- E in Hq. cbn [dbs st2] in Hq.
    now rewrite lookup_insert_eq in Hq. }
  match type of HClone with
  | _ = Some (_, ?s3) =>
      exists st1, st2, s3,
        (mkStore (<[db := with_defaultTableNamer later d2]> (dbs s3))
                 (stmtCaches s3)),
        q,
        (mkDB (adapter d) (sqlDB d) None (logger d) 0 tnamer p1 p2 true)
  end.
  split.
  { unfold UseErrorParser. rewrite Hdb. reflexivity. }
  split.
  { unfold SetDefaultTableNamer. cbn [dbs st1].
    rewrite lookup_insert_eq. reflexivity. }
  split; [exact HClone|].
  cbn [dbs stmtCaches]. split; [now rewrite lookup_insert_eq|].
  repeat (split; [reflexivity|]).
  split.
  { unfold SetDefaultTableNamer, set_dbs. cbn [dbs stmtCaches].
    rewrite lookup_insert_ne by congruence. cbn [dbs st2].
    rewrite lookup_insert_eq. reflexivity. }
  rewrite lookup_insert_ne by exact Hne.
  now rewrite lookup_insert_eq.
Qed.

Lemma Clone_settings_witness :
  exists (st1 st2 st3 st4 : Store) (clone : loc) (d' : DB),
    UseErrorParser 0%nat example_store = Some st1
    /\ SetDefaultTableNamer 0%nat (Some 5%nat) st1 = Some st2
    /\ Clone 64 0%nat st2 = Some (clone, st3)
    /\ dbs st3 !! clone = Some d'
    /\ useErrorParser d' = true
    /\ defaultTableNamer d' = Some 5%nat
    /\ adapter d' = Some 1%nat
    /\ logger d' = None
    /\ SetDefaultTableNamer 0%nat (Some 6%nat) st3 = Some st4
    /\ dbs st4 !! clone = Some d'.
Proof.
  apply (Clone_settings 64 example_store 0%nat example_DB
           (mkStmtCache false 64 []) (mkStmtCache true 64 [])
           (Some 5%nat) (Some 6%nat)); reflexivity.
Defined.

(** ** Quoting identifiers *)

Section QuoteFacts.

Variable Quote : string -> string.

Lemma prefix_dot (ch : ascii) (s : string) :
  String.prefix "." (String ch s) = Ascii.eqb ch ".".
Proof.
  change (String.prefix "." (String ch s))
    with (if ascii_dec "." ch then String.prefix EmptyString s else false).
  destruct (ascii_dec "." ch) as [<- | Hne].
  - now destruct s.
  - symmetry. apply Ascii.eqb_neq. congruence.
Qed.

Lemma split_from_cons (ch : ascii) (s current : string) :
  split_from 0 (String ch s) "." current
  = if Ascii.eqb ch "." then current :: split_from 0 s "." EmptyString
    else split_from 0 s "." (String.append current (String ch EmptyString)).
Proof.
  change (split_from 0 (String ch s) "." current)
    with (if String.prefix "." (String ch s)
          then current :: split_from 0 s "." EmptyString
          else split_from 0 s "." (String.append current (String ch EmptyString))).
  now rewrite prefix_dot.
Qed.

Lemma split_from_nonempty (s current : string) :
  split_from 0 s "." current <> [].
Proof.
  revert current. induction s as [|ch s IH]; intros current; [discriminate|].
  rewrite split_from_cons. destruct (Ascii.eqb ch "."); [discriminate | apply IH].
Qed.

Lemma split_from_app (a b : string) :
  forall current : string,
    split_from 0 (String.append a (String "." b)) "." current
    = split_from 0 a "." current ++ split_from 0 b "." EmptyString.
Proof.
  induction a as [|ch a IH]; intros current.
  - rewrite append_empty_l, split_from_cons. reflexivity.
  - rewrite append_cons, !split_from_cons.
    destruct (Ascii.eqb ch "."); [|apply IH].
    rewrite IH. reflexivity.
Qed.

Lemma concat_app (sep : string) (l1 l2 : list string) :
  l1 <> [] -> l2 <> [] ->
  String.concat sep (l1 ++ l2)
  = String.append (String.concat sep l1)
      (String.append sep (String.concat sep l2)).
Proof.
  intros H1 H2. induction l1 as [|x l1 IH]; [congruence|].
  destruct l1 as [|y l1].
  - destruct l2 as [|z l2]; [congruence|]. reflexivity.
  - cbn [List.app] in *. rewrite concat_cons2, IH by discriminate.
    rewrite concat_cons2. now rewrite !append_assoc.
Qed.

Lemma concat_split_from (s : string) :
  forall current : string,
    String.concat "." (split_from 0 s "." current) = String.append current s.
Proof.
  induction s as [|ch s IH]; intros current.
  - cbn [split_from String.concat]. now rewrite append_empty_r.
  - rewrite split_from_cons. destruct (Ascii.eqb ch ".") eqn:E.
    + apply Ascii.eqb_eq in E. subst ch.
      pose proof (split_from_nonempty s EmptyString) as Hne.
      destruct (split_from 0 s "." EmptyString) as [|x l] eqn:Hs; [congruence|].
      rewrite concat_cons2, <- Hs, IH. reflexivity.
    + rewrite IH, append_assoc. reflexivity.
Qed.

(** No byte of the string is a dot. *)
Lemma split_from_plain (s : string) :
  forall current : string,
    strings.Index s "." = -1 ->
    split_from 0 s "." current = [String.append current s].
Proof.
  induction s as [|ch s IH]; intros current Hplain.
  - cbn [split_from]. now rewrite append_empty_r.
  - rewrite split_from_cons.
    change (strings.Index (String ch s) ".")
      with (if String.prefix "." (String ch s) then 0
            else let i := strings.Index s "." in
                 if i <? 0 then -1 else i + 1) in Hplain.
    rewrite prefix_dot in Hplain.
    destruct (Ascii.eqb ch "."); [discriminate|].
    cbv zeta in Hplain.
    destruct (Z.ltb_spec (strings.Index s ".") 0) as [Hneg|Hpos].
    + assert (Hs : strings.Index s "." = -1).
      { clear -Hneg. induction s as [|c s IHs]; [reflexivity|].
        change (strings.Index (String c s) ".")
          with (if String.prefix "." (String c s) then 0
                else let i := strings.Index s "." in
                     if i <? 0 then -1 else i + 1) in *.
        destruct (String.prefix "." (String c s)); [lia|].
        cbv zeta in *.
        destruct (Z.ltb_spec (strings.Index s ".") 0); [reflexivity | lia]. }
      rewrite IH by exact Hs. now rewrite append_assoc.
    + lia.
Qed.

(** X16. Quoting a qualified name quotes its parts: [quote] of
    [a.b] is [quote] of [a], a dot, and [quote] of [b], for any [a] and
    [b] (with dots of their own or empty) and any adapter. *)
Theorem quote_qualified (a b : string) :
  quote Quote (String.append a (String "." b))
  = String.append (quote Quote a) (String "." (quote Quote b)).
Proof.
  unfold quote, Split, Join. rewrite split_from_app, List.map_app.
  rewrite concat_app; [reflexivity | |].
  - pose proof (split_from_nonempty a EmptyString).
    now destruct (split_from 0 a "." EmptyString).
  - pose proof (split_from_nonempty b EmptyString).
    now destruct (split_from 0 b "." EmptyString).
Qed.

(** X17. [quote] calls the adapter once on a name without dot, the
    empty name included, and returns what the adapter returns; with an
    adapter that quotes nothing, [quote] returns every identifier as it
    is. *)
Theorem quote_plain (identifier : string) :
  (strings.Index identifier "." = -1 ->
   quote Quote identifier = Quote identifier)
  /\ ((forall part, Quote part = part) -> quote Quote identifier = identifier).
Proof.
  unfold quote, Split, Join. split.
  - intros Hplain. rewrite split_from_plain by exact Hplain.
    cbn [List.map String.concat]. now rewrite append_empty_l.
  - intros Hid.
    replace (List.map Quote (split_from 0 identifier "." EmptyString))
      with (split_from 0 identifier "." EmptyString).
    + now rewrite concat_split_from, append_empty_l.
    + induction (split_from 0 identifier "." EmptyString) as [|x l IH];
        [reflexivity|]. cbn [List.map]. now rewrite Hid, <- IH.
Qed.

Lemma quoteAll_loop_map (identifiers : list string) :
  forall quotedIdentifiers : list string,
    quoteAll_loop Quote quotedIdentifiers identifiers
    = quotedIdentifiers ++ List.map (quote Quote) identifiers.
Proof.
  induction identifiers as [|identifier rest IH]; intros quotedIdentifiers.
  - cbn [quoteAll_loop List.map]. now rewrite List.app_nil_r.
  - cbn [quoteAll_loop List.map]. rewrite IH, <- List.app_assoc. reflexivity.
Qed.

(** X18. [quoteAll] quotes each identifier at its place: as many
    results as identifiers, in the same order, the i-th being [quote]
    of the i-th. *)
Theorem quoteAll_each (identifiers : list string) :
  quoteAll Quote identifiers = List.map (quote Quote) identifiers
  /\ List.length (quoteAll Quote identifiers) = List.length identifiers
  /\ forall i identifier,
       List.nth_error identifiers i = Some identifier ->
       List.nth_error (quoteAll Quote identifiers) i
       = Some (quote Quote identifier).
Proof.
  assert (Hmap : quoteAll Quote identifiers = List.map (quote Quote) identifiers).
  { unfold quoteAll. now rewrite quoteAll_loop_map. }
  rewrite Hmap. split; [reflexivity|]. split; [apply List.length_map|].
  intros i identifier Hi. now apply List.map_nth_error.
Qed.

End QuoteFacts.

Lemma quote_plain_witness :
  quote (fun part => String.append "`" (String.append part "`")) "dummies"
  = "`dummies`"%string
  /\ quote (fun part => part) "public.dummies" = "public.dummies"%string.
Proof.
  split.
  - apply (proj1 (quote_plain
                    (fun part => String.append "`" (String.append part "`"))
                    "dummies")).
    reflexivity.
  - apply (proj2 (quote_plain (fun part => part) "public.dummies")).
    reflexivity.
Defined.

Lemma quoteAll_each_witness :
  List.nth_error
    (quoteAll (fun part => String.append "`" (String.append part "`"))
       ["id"%string; "public.dummies"%string]) 1
  = Some "`public`.`dummies`"%string.
Proof.
  apply (proj2 (proj2 (quoteAll_each
                         (fun part => String.append "`" (String.append part "`"))
                         ["id"%string; "public.dummies"%string]))
           1%nat "public.dummies"%string).
  reflexivity.
Defined.


(** ** The outcome of [RawSQL.Do] *)

Section DoOutcome.

Variables (world target structMappingDetails pointer : Type).

Local Abbreviation description' :=
  (RawSQL.recordDescription target structMappingDetails).
Local Abbreviation getter' := (RawSQL.pointersGetter world target pointer).

Variable buildRecordDescription : target -> description' + error.
Variable GetPointersForColumns :
  structMappingDetails -> target -> list string -> world
  -> list pointer * option error.
Variable doSelectOrWithReturning :
  loc -> string -> list value -> description' -> getter'
  -> world -> world * (Z * option error).

Local Abbreviation Do' :=
  (RawSQL.Do world target structMappingDetails pointer
     buildRecordDescription GetPointersForColumns doSelectOrWithReturning).

Local Abbreviation run' raw info w :=
  (doSelectOrWithReturning
     (RawSQL.db raw) (RawSQL.sql raw) (RawSQL.arguments raw) info
     (fun rec columns =>
        GetPointersForColumns (RawSQL.structMapping _ _ info) rec columns)
     w).

(** X19. [Do] changes no error.  When the description of the target
    cannot be built, it returns that error and runs no query.  When the
    query fails, it returns the error of the query as it is, also for a
    struct and a count of zero.  It returns nil exactly when the
    description is built, the query succeeds, and the target is a slice
    or the count is not zero. *)
Theorem Do_outcome (raw : RawSQL.RawSQL) (rec : target) (w : world) :
  (forall e,
      buildRecordDescription rec = inr e -> Do' raw rec w = (w, Some e))
  /\ (forall info w' rowsCount e,
         buildRecordDescription rec = inl info ->
         run' raw info w = (w', (rowsCount, Some e)) ->
         Do' raw rec w = (w', Some e))
  /\ (snd (Do' raw rec w) = None <->
      exists info w' rowsCount,
        buildRecordDescription rec = inl info
        /\ run' raw info w = (w', (rowsCount, None))
        /\ (RawSQL.isSlice _ _ info = true \/ rowsCount <> 0)).
Proof.
  split; [|split].
  - intros e Hbuild. unfold RawSQL.Do. now rewrite Hbuild.
  - intros info w' rowsCount e Hbuild Hrun.
    unfold RawSQL.Do. now rewrite Hbuild, Hrun.
  - unfold RawSQL.Do.
    destruct (buildRecordDescription rec) as [info|e] eqn:Hbuild.
    + destruct (run' raw info w) as [w' [rowsCount [e|]]] eqn:Hrun.
      * split; [discriminate|].
        intros (info' & w'' & n & Hinfo & Hrun' & _).
        injection Hinfo as <-. rewrite Hrun in Hrun'. discriminate.
      * destruct (RawSQL.isSlice _ _ info) eqn:Hslice; cbn [negb andb].
        { split; [|reflexivity]. intros _.
          exists info, w', rowsCount. auto. }
        destruct (Z.eqb_spec rowsCount 0) as [Hzero|Hzero]; cbn [snd].
        { split; [discriminate|].
          intros (info' & w'' & n & Hinfo & Hrun' & Hor).
          injection Hinfo as <-. rewrite Hrun in Hrun'.
          injection Hrun' as <- <-.
          destruct Hor as [Hor|Hor]; congruence. }
        split; [|reflexivity]. intros _.
        exists info, w', rowsCount. auto.
    + split; [discriminate|].
      intros (info & _ & _ & Hinfo & _). discriminate.
Qed.

End DoOutcome.

Lemma Do_outcome_witness :
  snd (NoRows.Do (RawSQL.mkRawSQL 0%nat "SELECT * FROM dummies" []) true [])
  = None.
Proof.
  apply (proj2 (proj2 (proj2
           (Do_outcome NoRows.world NoRows.target unit nat
              NoRows.buildRecordDescription NoRows.GetPointersForColumns
              NoRows.doSelectOrWithReturning
              (RawSQL.mkRawSQL 0%nat "SELECT * FROM dummies" []) true [])))).
  exists (RawSQL.mkRecordDescription _ _ true true tt), [], 0.
  split; [reflexivity|]. split; [reflexivity|]. now left.
Defined.
